(** * aiocoap option header codec ([iot/options.py])

    A shallow embedding of the extended-field ("varint") codec and of the
    [Options] container of [iot/options.py], with the properties of its
    specification stated and proved over it.

    Conventions of the embedding:
    - a Python [int] is a [Z]; a [bytes] object is a [list byte];
    - a raised exception is the [Raise] outcome of type [result], tagged with
      the exception class;
    - the methods of [Options] run in a state-and-exception monad over the
      dictionary [self._options]; the dictionary is an association list in
      insertion order, as a Python dict iterates. *)

From Stdlib Require Import ZArith List Lia Bool Sorted Permutation.
From Stdlib Require String.
From coqutil Require Import Byte.
From Equations Require Import Equations.
Import ListNotations.

Local Open Scope Z_scope.

(** ** Exceptions and outcomes *)

(** The exception classes the module can raise. *)
Inductive exn : Type :=
| ValueError     (* raise ValueError("Value out of range.") *)
| IndexError     (* subscript of an empty sequence *)
| StructError    (* struct.error *)
| TypeError      (* call that misses a required argument *).

Inductive result (A : Type) : Type :=
| Return (a : A)
| Raise (e : exn).
Arguments Return {A} a.
Arguments Raise {A} e.

Definition rbind {A B} (r : result A) (k : A -> result B) : result B :=
  match r with
  | Return a => k a
  | Raise e => Raise e
  end.

Declare Scope result_scope.
Delimit Scope result_scope with res.
Notation "'let*' x ':=' r 'in' k" := (rbind r (fun x => k))
  (at level 10, x pattern, r at level 100, k at level 200) : result_scope.

(** ** Byte strings *)

Definition bytes := list byte.

(** [len(b)] *)
Definition len {A} (l : list A) : Z := Z.of_nat (List.length l).

(** [seq[:n]], with Python's reading of a negative bound. *)
Definition slice_to {A} (n : Z) (l : list A) : list A :=
  if n <? 0 then firstn (Z.to_nat (len l + n)) l
  else firstn (Z.to_nat n) l.

(** [seq[n:]], with Python's reading of a negative bound. *)
Definition slice_from {A} (n : Z) (l : list A) : list A :=
  if n <? 0 then skipn (Z.to_nat (len l + n)) l
  else skipn (Z.to_nat n) l.

(** [seq[0]] *)
Definition item0 {A} (l : list A) : result A :=
  match l with
  | [] => Raise IndexError
  | x :: _ => Return x
  end.

(** ** The [struct] module, for the two formats the codec uses

    [options.py] reaches [struct] through [from .numbers import *]; it is the
    module of Python's standard library. *)
Module struct.

(** [struct.pack('!B', n)] *)
Definition pack_B (n : Z) : result bytes :=
  if (0 <=? n) && (n <=? 255) then Return [byte.of_Z n]
  else Raise StructError.

(** [struct.pack('!H', n)]: two bytes, most significant first. *)
Definition pack_H (n : Z) : result bytes :=
  if (0 <=? n) && (n <=? 65535)
  then Return [byte.of_Z (n / 256); byte.of_Z (n mod 256)]
  else Raise StructError.

(** [struct.unpack('!H', b)[0]]: the buffer must hold exactly two bytes. *)
Definition unpack_H (b : bytes) : result Z :=
  match b with
  | [hi; lo] => Return (256 * byte.unsigned hi + byte.unsigned lo)
  | _ => Raise StructError
  end.

End struct.

(** ** The extended-field codec *)

(** [readExtendedFieldValue(value, rawdata)] *)
Definition readExtendedFieldValue (value : Z) (rawdata : bytes)
  : result (Z * bytes) :=
  if (value >=? 0) && (value <? 13) then
    Return (value, rawdata)
  else if value =? 13 then
    (let* b := item0 rawdata in
     Return (byte.unsigned b + 13, slice_from 1 rawdata))%res
  else if value =? 14 then
    (let* n := struct.unpack_H (slice_to 2 rawdata) in
     Return (n + 269, slice_from 2 rawdata))%res
  else
    Raise ValueError.

(** [writeExtendedFieldValue(value)] *)
Definition writeExtendedFieldValue (value : Z) : result (Z * bytes) :=
  if (value >=? 0) && (value <? 13) then
    Return (value, [])
  else if (value >=? 13) && (value <? 269) then
    (let* ext := struct.pack_B (value - 13) in Return (13, ext))%res
  else if (value >=? 269) && (value <? 65804) then
    (let* ext := struct.pack_H (value - 269) in Return (14, ext))%res
  else
    Raise ValueError.

(** ** Option instances

    The option classes and the option-number registry live in other modules
    ([optiontypes], [numbers]); [options.py] uses an instance only through
    [number], [length], [value] and [encode()], and builds one through
    [option_number.create_option(decode=...)] or
    [option_number.create_option(value=...)].  [V] is the type of the typed
    values handed to and read from an instance. *)
Class OptionInstance (O V : Type) : Type := {
  number : O -> Z;                         (* option.number *)
  opt_length : O -> Z;                     (* option.length *)
  opt_value : O -> V;                      (* option.value *)
  opt_encode : O -> bytes;                 (* option.encode() *)
  create_option_decode : Z -> bytes -> O;  (* n.create_option(decode=raw) *)
  create_option_value : Z -> V -> O        (* n.create_option(value=v) *)
}.

(** What the codec relies on from an instance built from raw bytes: it keeps
    the number it was created for, encodes to the bytes it was decoded from,
    and reports the size of its encoding as its length. *)
Class OptionLaws (O V : Type) `{OptionInstance O V} : Prop := {
  number_create_decode : forall n raw, number (create_option_decode n raw) = n;
  encode_create_decode :
    forall n raw, opt_encode (create_option_decode n raw) = raw;
  length_encode : forall o : O, opt_length o = len (opt_encode o)
}.

(** Modelled from the spec: the option instance type is external to
    [options.py]; this is the opaque instance of the specification, an option
    number with the raw bytes of its value. *)
Record RawOption : Type := { raw_number : Z; raw_value : bytes }.

#[export] Instance RawOption_instance : OptionInstance RawOption bytes := {
  number := raw_number;
  opt_length := fun o => len (raw_value o);
  opt_value := raw_value;
  opt_encode := raw_value;
  create_option_decode := fun n raw => {| raw_number := n; raw_value := raw |};
  create_option_value := fun n v => {| raw_number := n; raw_value := v |}
}.

(** ** Python built-ins used by the container *)

(** [bytes(ints)]: every element must be in [range(256)]. *)
Fixpoint bytes_of_ints (ints : list Z) : result bytes :=
  match ints with
  | [] => Return []
  | n :: ints' =>
      if (0 <=? n) && (n <? 256)
      then (let* b := bytes_of_ints ints' in Return (byte.of_Z n :: b))%res
      else Raise ValueError
  end.

(** Evaluation of the sort key on every element, in order; the first failure
    is raised. *)
Fixpoint eval_keys {A} (key : A -> result Z) (l : list A)
  : result (list (Z * A)) :=
  match l with
  | [] => Return []
  | x :: l' =>
      (let* k := key x in
       let* kl := eval_keys key l' in
       Return ((k, x) :: kl))%res
  end.

(** Insertion of [x], which precedes the elements of [l] in the input, into
    the sorted [l]: before the first element whose key is not smaller. *)
Fixpoint insert_by {A} (key : A -> Z) (x : A) (l : list A) : list A :=
  match l with
  | [] => [x]
  | y :: l' => if key x <=? key y then x :: y :: l' else y :: insert_by key x l'
  end.

(** A stable sort by integer key. *)
Definition stable_sort {A} (key : A -> Z) (l : list A) : list A :=
  fold_right (insert_by key) [] l.

(** [sorted(l, key=key)]: the keys are computed first, then the elements are
    sorted by key, elements with equal keys keeping their order. *)
Definition sorted {A} (key : A -> result Z) (l : list A) : result (list A) :=
  (let* kl := eval_keys key l in Return (map snd (stable_sort fst kl)))%res.

(** The value [Options.decode] returns: [rawdata[1:]] is a [bytes] object,
    the literal [''] a [str]. *)
Inductive payload : Type :=
| PayloadBytes (b : bytes)
| PayloadStr (s : String.string).

(** *** The dictionary [self._options]

    Entries in insertion order; a key occurs once. *)
Definition dict (O : Type) : Type := list (Z * list O).

(** *** Methods: state and exceptions

    The state of an [Options] object is its dictionary.  A method maps the
    state before the call to its outcome and the state after it; a method
    that raises leaves the changes made so far. *)
Definition Options (O : Type) : Type := dict O.

Definition M (O A : Type) : Type := Options O -> result A * Options O.

Section Container.

Context {O : Type}.

(** [k in d] *)
Definition dict_contains (k : Z) (d : dict O) : bool :=
  existsb (fun e => fst e =? k) d.

(** [d.get(k)] *)
Fixpoint dict_get (k : Z) (d : dict O) : option (list O) :=
  match d with
  | [] => None
  | (k', v) :: d' => if k' =? k then Some v else dict_get k d'
  end.

(** [d.pop(k)], for a key that is present: the entry is removed. *)
Definition dict_pop (k : Z) (d : dict O) : dict O :=
  filter (fun e => negb (fst e =? k)) d.

(** [d.setdefault(k, [])]: a new key enters at the end with an empty list. *)
Definition dict_setdefault (k : Z) (d : dict O) : dict O :=
  if dict_contains k d then d else d ++ [(k, [])].

(** [d[k].append(o)]: the list stored under [k] is extended in place. *)
Fixpoint dict_append (k : Z) (o : O) (d : dict O) : dict O :=
  match d with
  | [] => []
  | (k', v) :: d' =>
      if k' =? k then (k', v ++ [o]) :: d' else (k', v) :: dict_append k o d'
  end.

(** [d.values()] *)
Definition dict_values (d : dict O) : list (list O) := map snd d.

Definition ret {A} (a : A) : M O A := fun self => (Return a, self).

Definition raise {A} (e : exn) : M O A := fun self => (Raise e, self).

Definition bind {A B} (m : M O A) (k : A -> M O B) : M O B :=
  fun self =>
    match m self with
    | (Return a, self') => k a self'
    | (Raise e, self') => (Raise e, self')
    end.

(** A computation that does not touch the object. *)
Definition lift {A} (r : result A) : M O A := fun self => (r, self).

(** Read and write of [self._options]. *)
Definition get_options : M O (dict O) := fun self => (Return self, self).

Definition set_options (d : dict O) : M O unit := fun _ => (Return tt, d).

(** [Options()] *)
Definition init : Options O := [].

End Container.

Declare Scope method_scope.
Delimit Scope method_scope with M.
Notation "x <- m ;; k" := (bind m (fun x => k))
  (at level 61, m at next level, right associativity) : method_scope.
Notation "m ;; k" := (bind m (fun _ => k))
  (at level 61, right associativity) : method_scope.

Section Methods.

Context {O V : Type} `{OptionInstance O V}.

Local Open Scope method_scope.

(** [Options.addOption(self, option)] *)
Definition addOption (option : O) : M O unit :=
  d <- get_options ;;
  set_options
    (dict_append (number option) option (dict_setdefault (number option) d)).

(** [Options.deleteOption(self, number)] *)
Definition deleteOption (n : Z) : M O unit :=
  d <- get_options ;;
  if dict_contains n d then set_options (dict_pop n d) else ret tt.

(** [Options.getOption(self, number)]; the empty tuple returned for an
    absent key is the empty sequence. *)
Definition getOption (n : Z) : M O (list O) :=
  d <- get_options ;;
  ret (match dict_get n d with Some v => v | None => [] end).

(** [Options.optionList(self)]; the chain is read out in full. *)
Definition optionList : M O (list O) :=
  d <- get_options ;;
  groups <- lift (sorted (fun x => let* o := item0 x in Return (number o))%res
                         (dict_values d)) ;;
  ret (concat groups).

(** The body of the [for] loop of [Options.encode], over the options that
    remain: the byte strings appended to [data]. *)
Fixpoint encode_loop (current_opt_num : Z) (option_list : list O)
  : result (list bytes) :=
  match option_list with
  | [] => Return []
  | option :: option_list' =>
      (let* (delta, extended_delta) :=
         writeExtendedFieldValue (number option - current_opt_num) in
       let* (length, extended_length) :=
         writeExtendedFieldValue (opt_length option) in
       let* head :=
         bytes_of_ints [Z.shiftl (Z.land delta 15) 4 + Z.land length 15] in
       let* data := encode_loop (number option) option_list' in
       Return (head :: extended_delta :: extended_length
               :: opt_encode option :: data))%res
  end.

(** [Options.encode(self)] *)
Definition encode : M O bytes :=
  option_list <- optionList ;;
  data <- lift (encode_loop 0 option_list) ;;
  ret (concat data).

(** One pass through the body of the [while] loop of [Options.decode] up to
    the construction of the option: either the marker ends the options, or
    an entry yields the new option number, the option and the bytes left. *)
Inductive entry : Type :=
| Marker (rest : bytes)
| Entry (option_number : Z) (option : O) (rest : bytes).

Definition decode_entry (option_number : Z) (dllen : byte) (rawdata : bytes)
  : result entry :=
  if byte.unsigned dllen =? 255 then Return (Marker rawdata)
  else
    (let delta := Z.shiftr (Z.land (byte.unsigned dllen) 240) 4 in
     let length := Z.land (byte.unsigned dllen) 15 in
     let* (delta, rawdata) := readExtendedFieldValue delta rawdata in
     let* (length, rawdata) := readExtendedFieldValue length rawdata in
     let option_number := option_number + delta in
     let option :=
       create_option_decode option_number (slice_to length rawdata) in
     Return (Entry option_number option (slice_from length rawdata)))%res.

(** Every pass leaves no more bytes than it was given, so the loop, which
    also drops the first byte, ends. *)
Lemma slice_from_length {A} (n : Z) (l : list A) :
  (List.length (slice_from n l) <= List.length l)%nat.
Proof.
  unfold slice_from. destruct (n <? 0); rewrite length_skipn; lia.
Qed.

Lemma read_rest_length (nib v : Z) (rawdata rest : bytes) :
  readExtendedFieldValue nib rawdata = Return (v, rest) ->
  (List.length rest <= List.length rawdata)%nat.
Proof.
  unfold readExtendedFieldValue.
  destruct ((nib >=? 0) && (nib <? 13)); [intros [= _ <-]; lia|].
  destruct (nib =? 13).
  { destruct (item0 rawdata); [|discriminate].
    intros [= _ <-]. apply slice_from_length. }
  destruct (nib =? 14); [|discriminate].
  destruct (struct.unpack_H _); [|discriminate].
  intros [= _ <-]. apply slice_from_length.
Qed.

Lemma decode_entry_length n dllen rawdata n' option rest :
  decode_entry n dllen rawdata = Return (Entry n' option rest) ->
  (List.length rest <= List.length rawdata)%nat.
Proof.
  unfold decode_entry. destruct (byte.unsigned dllen =? 255); [discriminate|].
  destruct (readExtendedFieldValue _ rawdata) as [[delta r1]|] eqn:E1;
    [|discriminate].
  cbn [rbind].
  destruct (readExtendedFieldValue _ r1) as [[length r2]|] eqn:E2;
    [|discriminate].
  cbn [rbind]. intros [= _ _ <-].
  apply read_rest_length in E1, E2.
  pose proof (slice_from_length length r2). lia.
Qed.

(** A value together with the equation that names it. *)
Definition inspect {A} (a : A) : {b : A | a = b} := exist _ a eq_refl.

(** The [while] loop of [Options.decode]. *)
Equations? decode_loop (option_number : Z) (rawdata : bytes) : M O payload
  by wf (List.length rawdata) lt :=
  decode_loop option_number [] := ret (PayloadStr String.EmptyString);
  decode_loop option_number (dllen :: rawdata)
    with inspect (decode_entry option_number dllen rawdata) := {
    | exist _ (Raise e) _ := raise e;
    | exist _ (Return (Marker rest)) _ := ret (PayloadBytes rest);
    | exist _ (Return (Entry option_number' option rest)) Hentry :=
        addOption option ;; decode_loop option_number' rest }.
Proof.
  apply decode_entry_length in Hentry. simpl. lia.
Qed.

(** [Options.decode(self, rawdata)] *)
Definition decode (rawdata : bytes) : M O payload := decode_loop 0 rawdata.

(** *** The single-value view

    An accessor is applied by the property protocol to the instance and,
    for a set, to the value: [fget(obj)], [fset(obj, value)], [fdel(obj)].
    An accessor is modelled by its body on the positional arguments that
    follow [self]; a call that leaves a parameter without default unbound
    raises [TypeError].  The parameter [option_number=option_number] only
    captures the number of the view: the protocol never passes it.  [None]
    is Python's [None]. *)
Definition pyfunction : Type := list (option V) -> M O (option V).

(** [def _getter(self, option_number=option_number)] *)
Definition _getter (option_number : Z) : pyfunction := fun args =>
  options <- getOption option_number ;;
  match options with
  | [] => ret None
  | option :: _ => ret (Some (opt_value option))
  end.

(** [def _setter(self, value, option_number=option_number)] *)
Definition _setter (option_number : Z) : pyfunction := fun args =>
  match args with
  | [] => raise TypeError
  | value :: _ =>
      deleteOption option_number ;;
      match value with
      | Some v => addOption (create_option_value option_number v) ;; ret None
      | None => ret None
      end
  end.

(** [def _deleter(self, value, option_number=option_number)] *)
Definition _deleter (option_number : Z) : pyfunction := fun args =>
  match args with
  | [] => raise TypeError
  | value :: _ => deleteOption option_number ;; ret None
  end.

(** [property(fget, fset, fdel, doc)] *)
Record property : Type := {
  fget : pyfunction;
  fset : pyfunction;
  fdel : pyfunction
}.

(** [_single_value_view(option_number)] *)
Definition _single_value_view (option_number : Z) : property :=
  {| fget := _getter option_number;
     fset := _setter option_number;
     fdel := _deleter option_number |}.

(** [obj.attr], [obj.attr = value] and [del obj.attr] for a property. *)
Definition property_get (p : property) : M O (option V) := fget p [].

Definition property_set (p : property) (value : option V)
  : M O (option V) := fset p [value].

Definition property_delete (p : property) : M O (option V) := fdel p [].

End Methods.

(** *** The items view

    The accessors of [_items_view(option_number)], as the property protocol
    applies them: [fget(obj)] for a read and [fset(obj, value)] for an
    assignment, where [value] is an iterable of typed values, here the list
    of the values it yields.  The parameter [option_number=option_number]
    captures the number of the view. *)
Module items_view.

Section ItemsView.

Context {O V : Type} `{OptionInstance O V}.

Local Open Scope method_scope.

(** [def _getter(self, option_number=option_number)]: the tuple of the
    values of the options of that number. *)
Definition _getter (option_number : Z) : M O (list V) :=
  options <- getOption option_number ;;
  ret (map opt_value options).

(** The [for] loop of [_setter], over the values that remain. *)
Fixpoint add_values (option_number : Z) (value : list V) : M O unit :=
  match value with
  | [] => ret tt
  | v :: value' =>
      addOption (create_option_value option_number v) ;;
      add_values option_number value'
  end.

(** [def _setter(self, value, option_number=option_number)] *)
Definition _setter (option_number : Z) (value : list V) : M O unit :=
  deleteOption option_number ;;
  add_values option_number value.

End ItemsView.

End items_view.

(** ** Vocabulary of the specification *)

Section Keys.

Context {A : Type} (key : A -> Z).

(** The elements of key [k], in their order in the list. *)
Definition with_key (k : Z) (l : list A) : list A :=
  filter (fun x => key x =? k) l.

Definition key_le (x y : A) : Prop := key x <= key y.

End Keys.

Section Vocabulary.

Context {O V : Type} `{OptionInstance O V}.

(** The sequence stored under a key, empty for an absent key. *)
Definition contents (k : Z) (d : Options O) : list O :=
  match dict_get k d with Some v => v | None => [] end.

(** The sort key of [optionList] on a non-empty group. *)
Definition head_number (v : list O) : Z :=
  match v with o :: _ => number o | [] => 0 end.

(** An entry holds at least one option, and only options of its key. *)
Definition entry_ok (e : Z * list O) : Prop :=
  snd e <> [] /\ Forall (fun o => number o = fst e) (snd e).

(** The invariant of [self._options]. *)
Definition well_formed (d : Options O) : Prop :=
  NoDup (map fst d) /\ Forall entry_ok d.

(** A group whose options all carry the number of its head. *)
Definition homogeneous (g : list O) : Prop :=
  Forall (fun o => number o = head_number g) g.

(** The options of a well-formed dictionary in the order [optionList]
    yields them. *)
Definition ordered (d : Options O) : list O :=
  concat (stable_sort head_number (dict_values d)).

(** A run of [addOption] over a list of options. *)
Definition add_all (os : list O) (d : Options O) : Options O :=
  fold_left (fun d o => snd (addOption o d)) os d.

(** [reaches h d]: the state [d] is reached from the empty container by
    calls of [addOption] and [deleteOption]; [h] lists, in the order of
    their addition, the options added and not deleted since. *)
Inductive reaches : list O -> Options O -> Prop :=
| reaches_init : reaches [] init
| reaches_add h d o :
    reaches h d -> reaches (h ++ [o]) (snd (addOption o d))
| reaches_delete h d n :
    reaches h d ->
    reaches (filter (fun o => negb (number o =? n)) h)
            (snd (deleteOption n d)).

(** The option a decoder builds from the encoding of [o]. *)
Definition redecoded (o : O) : O :=
  create_option_decode (number o) (opt_encode o).

(** The option number the decoder holds after the options of [l]. *)
Definition last_number (cur : Z) (l : list O) : Z :=
  fold_left (fun _ o => number o) l cur.

(** What a round trip keeps of an option: its number and its bytes. *)
Definition wire (o : O) : Z * bytes := (number o, opt_encode o).

(** The options of [l], written after an option of number [cur], fit the
    codec: every delta and every length lies in 0..65803. *)
Fixpoint encodable (cur : Z) (l : list O) : Prop :=
  match l with
  | [] => True
  | o :: l' =>
      0 <= number o - cur <= 65803
      /\ 0 <= opt_length o <= 65803
      /\ encodable (number o) l'
  end.

End Vocabulary.

(** Options 11, 5, 11 again and 300, added in that order. *)
Definition sample_options : list RawOption :=
  [ {| raw_number := 11; raw_value := [Byte.x47; Byte.x45] |};
    {| raw_number := 5; raw_value := [Byte.x01] |};
    {| raw_number := 11; raw_value := [Byte.xff] |};
    {| raw_number := 300; raw_value := [] |} ].

Definition sample_header : bytes :=
  [Byte.x51; Byte.x01; Byte.x62; Byte.x47; Byte.x45; Byte.x01; Byte.xff;
   Byte.xe0; Byte.x00; Byte.x14].

(** Sanity checks on concrete values. *)
Example write_12 : writeExtendedFieldValue 12 = Return (12, []).
Proof. reflexivity. Qed.

Example write_13 : writeExtendedFieldValue 13 = Return (13, [Byte.x00]).
Proof. reflexivity. Qed.

Example write_65803 :
  writeExtendedFieldValue 65803 = Return (14, [Byte.xff; Byte.xfe]).
Proof. reflexivity. Qed.

Example read_14 :
  readExtendedFieldValue 14 [Byte.x01; Byte.x02; Byte.x03]
  = Return (527, [Byte.x03]).
Proof. reflexivity. Qed.

(** ** Properties of the extended-field codec *)

Section Varint.

Lemma byte_of_Z_small (n : Z) :
  0 <= n <= 255 -> byte.unsigned (byte.of_Z n) = n.
Proof.
  intros Hn. rewrite byte.unsigned_of_Z. unfold byte.wrap.
  apply Z.mod_small. lia.
Qed.

(** The two bytes of [pack_H] read back as the number packed. *)
Lemma unpack_pack_H (n : Z) :
  0 <= n <= 65535 ->
  exists hi lo,
    struct.pack_H n = Return [hi; lo]
    /\ 256 * byte.unsigned hi + byte.unsigned lo = n
    /\ struct.unpack_H [hi; lo] = Return n.
Proof.
  intros Hn. unfold struct.pack_H.
  replace ((0 <=? n) && (n <=? 65535)) with true
    by (symmetry; apply andb_true_iff; split; apply Z.leb_le; lia).
  eexists _, _. split; [reflexivity|].
  assert (Hhi : byte.unsigned (byte.of_Z (n / 256)) = n / 256).
  { apply byte_of_Z_small.
    split; [apply Z.div_pos; lia|].
    assert (n / 256 < 256) by (apply Z.div_lt_upper_bound; lia). lia. }
  assert (Hlo : byte.unsigned (byte.of_Z (n mod 256)) = n mod 256).
  { apply byte_of_Z_small.
    pose proof (Z.mod_pos_bound n 256 ltac:(lia)). lia. }
  unfold struct.unpack_H. rewrite Hhi, Hlo.
  pose proof (Z.div_mod n 256 ltac:(lia)).
  split; [lia | f_equal; lia].
Qed.

Lemma unpack_H_range (b : bytes) (n : Z) :
  struct.unpack_H b = Return n -> 0 <= n <= 65535.
Proof.
  destruct b as [|hi [|lo [|? ?]]]; unfold struct.unpack_H;
    intros H; try discriminate H.
  assert (n = 256 * byte.unsigned hi + byte.unsigned lo) by congruence.
  pose proof (byte.unsigned_range hi). pose proof (byte.unsigned_range lo).
  change (2 ^ 8) with 256 in *. lia.
Qed.

(** The branch taken by [writeExtendedFieldValue], by range. *)
Lemma write_tier_A (v : Z) :
  0 <= v <= 12 -> writeExtendedFieldValue v = Return (v, []).
Proof.
  intros Hv. unfold writeExtendedFieldValue.
  replace ((v >=? 0) && (v <? 13)) with true by lia. reflexivity.
Qed.

Lemma write_tier_B (v : Z) :
  13 <= v <= 268 ->
  writeExtendedFieldValue v = Return (13, [byte.of_Z (v - 13)]).
Proof.
  intros Hv. unfold writeExtendedFieldValue, struct.pack_B.
  replace ((v >=? 0) && (v <? 13)) with false by lia.
  replace ((v >=? 13) && (v <? 269)) with true by lia.
  replace ((0 <=? v - 13) && (v - 13 <=? 255)) with true by lia.
  reflexivity.
Qed.

Lemma write_tier_C (v : Z) :
  269 <= v <= 65803 ->
  exists hi lo,
    writeExtendedFieldValue v = Return (14, [hi; lo])
    /\ 256 * byte.unsigned hi + byte.unsigned lo = v - 269
    /\ struct.unpack_H [hi; lo] = Return (v - 269).
Proof.
  intros Hv. unfold writeExtendedFieldValue.
  replace ((v >=? 0) && (v <? 13)) with false by lia.
  replace ((v >=? 13) && (v <? 269)) with false by lia.
  replace ((v >=? 269) && (v <? 65804)) with true by lia.
  destruct (unpack_pack_H (v - 269)) as (hi & lo & Hp & Hv' & Hu); [lia|].
  exists hi, lo. rewrite Hp. simpl. auto.
Qed.

Lemma write_out_of_range (v : Z) :
  v < 0 \/ 65804 <= v -> writeExtendedFieldValue v = Raise ValueError.
Proof.
  intros Hv. unfold writeExtendedFieldValue.
  replace ((v >=? 0) && (v <? 13)) with false by lia.
  replace ((v >=? 13) && (v <? 269)) with false by lia.
  replace ((v >=? 269) && (v <? 65804)) with false by lia.
  reflexivity.
Qed.

(** The nibble of a successful encoding is one of 0..14. *)
Lemma write_nibble_range (v nib : Z) (ext : bytes) :
  writeExtendedFieldValue v = Return (nib, ext) -> 0 <= nib <= 14.
Proof.
  destruct (Z.ltb_spec v 0); [rewrite write_out_of_range by lia; discriminate|].
  destruct (Z.leb_spec v 12); [rewrite write_tier_A by lia; intros [= <- _]; lia|].
  destruct (Z.leb_spec v 268); [rewrite write_tier_B by lia; intros [= <- _]; lia|].
  destruct (Z.leb_spec v 65803).
  - destruct (write_tier_C v) as (hi & lo & -> & _); [lia|]. intros [= <- _]; lia.
  - rewrite write_out_of_range by lia. discriminate.
Qed.

(** The branches of [readExtendedFieldValue]. *)
Lemma read_tier_A (nib : Z) (rawdata : bytes) :
  0 <= nib <= 12 -> readExtendedFieldValue nib rawdata = Return (nib, rawdata).
Proof.
  intros Hn. unfold readExtendedFieldValue.
  replace ((nib >=? 0) && (nib <? 13)) with true by lia. reflexivity.
Qed.

Lemma read_tier_B (b : byte) (rest : bytes) :
  readExtendedFieldValue 13 (b :: rest) = Return (byte.unsigned b + 13, rest).
Proof. reflexivity. Qed.

Lemma read_tier_C (hi lo : byte) (rest : bytes) :
  readExtendedFieldValue 14 (hi :: lo :: rest)
  = Return (256 * byte.unsigned hi + byte.unsigned lo + 269, rest).
Proof. reflexivity. Qed.

Lemma read_reserved (nib : Z) (rawdata : bytes) :
  nib < 0 \/ 15 <= nib -> readExtendedFieldValue nib rawdata = Raise ValueError.
Proof.
  intros Hn. unfold readExtendedFieldValue.
  replace ((nib >=? 0) && (nib <? 13)) with false by lia.
  replace (nib =? 13) with false by lia.
  replace (nib =? 14) with false by lia. reflexivity.
Qed.

(** Decoding what [writeExtendedFieldValue] produced, whatever follows. *)
Lemma read_write (v nib : Z) (ext rest : bytes) :
  writeExtendedFieldValue v = Return (nib, ext) ->
  readExtendedFieldValue nib (ext ++ rest) = Return (v, rest).
Proof.
  destruct (Z.ltb_spec v 0); [rewrite write_out_of_range by lia; discriminate|].
  destruct (Z.leb_spec v 12).
  { rewrite write_tier_A by lia. intros [= <- <-].
    apply read_tier_A. lia. }
  destruct (Z.leb_spec v 268).
  { rewrite write_tier_B by lia. intros [= <- <-].
    change ([byte.of_Z (v - 13)] ++ rest) with (byte.of_Z (v - 13) :: rest).
    rewrite read_tier_B, byte_of_Z_small by lia. f_equal. f_equal. lia. }
  destruct (Z.leb_spec v 65803).
  - destruct (write_tier_C v) as (hi & lo & -> & Hv & _); [lia|].
    intros [= <- <-].
    change ([hi; lo] ++ rest) with (hi :: lo :: rest).
    rewrite read_tier_C, Hv. f_equal. f_equal. lia.
  - rewrite write_out_of_range by lia. discriminate.
Qed.

End Varint.

(** ** Properties of the stable sort *)

Section StableSort.

Context {A : Type} (key : A -> Z).

Lemma insert_by_perm (x : A) (l : list A) :
  Permutation (insert_by key x l) (x :: l).
Proof.
  induction l as [|y l IH]; simpl; [reflexivity|].
  destruct (key x <=? key y); [reflexivity|].
  rewrite IH. apply perm_swap.
Qed.

Lemma stable_sort_perm (l : list A) : Permutation (stable_sort key l) l.
Proof.
  induction l as [|x l IH]; simpl; [reflexivity|].
  rewrite insert_by_perm. constructor. exact IH.
Qed.

Lemma insert_by_sorted (x : A) (l : list A) :
  StronglySorted (key_le key) l -> StronglySorted (key_le key) (insert_by key x l).
Proof.
  induction 1 as [|y l Hs IH Hy]; simpl.
  - repeat constructor.
  - destruct (Z.leb_spec (key x) (key y)) as [Hxy|Hxy].
    + constructor; [constructor; assumption|].
      constructor; [exact Hxy|].
      eapply Forall_impl; [|exact Hy]. unfold key_le. intros; lia.
    + constructor; [exact IH|].
      eapply Permutation_Forall; [symmetry; apply insert_by_perm|].
      constructor; [unfold key_le; lia | exact Hy].
Qed.

Lemma stable_sort_sorted (l : list A) :
  StronglySorted (key_le key) (stable_sort key l).
Proof.
  induction l as [|x l IH]; simpl; [constructor|].
  apply insert_by_sorted, IH.
Qed.

(** Stability: the elements of one key keep their order. *)
Lemma insert_by_with_key (k : Z) (x : A) (l : list A) :
  with_key key k (insert_by key x l) = with_key key k (x :: l).
Proof.
  induction l as [|y l IH]; [reflexivity|].
  cbn [insert_by]. destruct (Z.leb_spec (key x) (key y)) as [Hxy|Hxy];
    [reflexivity|].
  unfold with_key in *. cbn [filter] in *.
  rewrite IH.
  destruct (Z.eqb_spec (key y) k), (Z.eqb_spec (key x) k);
    try reflexivity; lia.
Qed.

Lemma stable_sort_with_key (k : Z) (l : list A) :
  with_key key k (stable_sort key l) = with_key key k l.
Proof.
  induction l as [|x l IH]; [reflexivity|].
  cbn [stable_sort fold_right].
  rewrite insert_by_with_key. fold (stable_sort key l).
  unfold with_key in *. cbn [filter]. rewrite IH. reflexivity.
Qed.

Lemma with_key_In (k : Z) (x : A) (l : list A) :
  In x (with_key key k l) <-> In x l /\ key x = k.
Proof.
  unfold with_key. rewrite filter_In, Z.eqb_eq. reflexivity.
Qed.

(** A sorted list is determined by its elements of each key. *)
Lemma sorted_unique (l1 l2 : list A) :
  StronglySorted (key_le key) l1 -> StronglySorted (key_le key) l2 ->
  (forall k, with_key key k l1 = with_key key k l2) ->
  l1 = l2.
Proof.
  intros Hs1. revert l2.
  induction Hs1 as [|x l1 Hs1 IH Hx]; intros l2 Hs2 Heq.
  - destruct l2 as [|y l2]; [reflexivity|].
    specialize (Heq (key y)). unfold with_key in Heq. cbn [filter] in Heq.
    rewrite Z.eqb_refl in Heq. discriminate.
  - destruct Hs2 as [|y l2 Hs2 Hy].
    { specialize (Heq (key x)). unfold with_key in Heq. cbn [filter] in Heq.
      rewrite Z.eqb_refl in Heq. discriminate. }
    assert (Hkey : key x = key y).
    { assert (In y (x :: l1)) as Hin1.
      { apply (with_key_In (key y)). rewrite Heq.
        apply with_key_In. split; [left|]; reflexivity. }
      assert (In x (y :: l2)) as Hin2.
      { apply (with_key_In (key x)). rewrite <- Heq.
        apply with_key_In. split; [left|]; reflexivity. }
      rewrite Forall_forall in Hx, Hy. unfold key_le in *.
      destruct Hin1 as [->|Hin1]; [reflexivity|].
      destruct Hin2 as [->|Hin2]; [reflexivity|].
      specialize (Hx _ Hin1). specialize (Hy _ Hin2). lia. }
    assert (x = y).
    { specialize (Heq (key x)). unfold with_key in Heq. cbn [filter] in Heq.
      rewrite <- Hkey, Z.eqb_refl in Heq. congruence. }
    subst y. f_equal. apply IH; [exact Hs2|].
    intros k. specialize (Heq k). unfold with_key in *. cbn [filter] in Heq.
    destruct (key x =? k); congruence.
Qed.

(** Sorting a sorted list changes nothing. *)
Lemma stable_sort_sorted_id (l : list A) :
  StronglySorted (key_le key) l -> stable_sort key l = l.
Proof.
  intros Hs. apply sorted_unique;
    [apply stable_sort_sorted | exact Hs | intros; apply stable_sort_with_key].
Qed.

End StableSort.

(** Sorting commutes with a map that respects the keys. *)
Lemma stable_sort_map {A B} (keyA : A -> Z) (keyB : B -> Z) (f : A -> B)
      (l : list A) :
  (forall x, keyB (f x) = keyA x) ->
  stable_sort keyB (map f l) = map f (stable_sort keyA l).
Proof.
  intros Hf. induction l as [|x l IH]; [reflexivity|].
  cbn [map stable_sort fold_right]. fold (stable_sort keyB (map f l)).
  fold (stable_sort keyA l). rewrite IH.
  generalize (stable_sort keyA l) as s. induction s as [|y s IHs];
    [reflexivity|].
  cbn [map insert_by]. rewrite !Hf.
  destruct (keyA x <=? keyA y); [reflexivity|].
  cbn [map]. rewrite IHs. reflexivity.
Qed.

(** ** The dictionary and the mutation primitives *)

Section ContainerFacts.

Context {O V : Type} `{OptionInstance O V}.

Lemma getOption_eq (k : Z) (d : Options O) :
  getOption k d = (Return (contents k d), d).
Proof. reflexivity. Qed.

Lemma addOption_eq (o : O) (d : Options O) :
  addOption o d
  = (Return tt, dict_append (number o) o (dict_setdefault (number o) d)).
Proof. reflexivity. Qed.

Lemma dict_contains_In (k : Z) (d : dict O) :
  dict_contains k d = true <-> In k (map fst d).
Proof.
  unfold dict_contains. rewrite existsb_exists, in_map_iff.
  split; intros (e & H1 & H2); exists e.
  - apply Z.eqb_eq in H2. auto.
  - subst k. rewrite Z.eqb_refl. auto.
Qed.

Lemma dict_contains_get (k : Z) (d : dict O) :
  dict_contains k d
  = match dict_get k d with Some _ => true | None => false end.
Proof.
  unfold dict_contains.
  induction d as [|[k' v] d IH]; [reflexivity|].
  cbn. destruct (k' =? k); [reflexivity | exact IH].
Qed.

Lemma dict_get_None (k : Z) (d : dict O) :
  dict_contains k d = false -> dict_get k d = None.
Proof.
  rewrite dict_contains_get. destruct (dict_get k d); [discriminate|].
  reflexivity.
Qed.

Lemma dict_pop_absent (k : Z) (d : dict O) :
  dict_contains k d = false -> dict_pop k d = d.
Proof.
  unfold dict_pop, dict_contains.
  induction d as [|[k' v] d IH]; [reflexivity|].
  cbn. destruct (k' =? k); [discriminate|].
  cbn. intros Hd. rewrite (IH Hd). reflexivity.
Qed.

Lemma deleteOption_eq (n : Z) (d : Options O) :
  deleteOption n d = (Return tt, dict_pop n d).
Proof.
  unfold deleteOption, bind, get_options.
  destruct (dict_contains n d) eqn:E; [reflexivity|].
  rewrite dict_pop_absent by exact E. reflexivity.
Qed.

Lemma deleteOption_eq_state (n : Z) (d : Options O) :
  snd (deleteOption n d) = dict_pop n d.
Proof. rewrite deleteOption_eq. reflexivity. Qed.

Lemma dict_get_pop (k n : Z) (d : dict O) :
  dict_get k (dict_pop n d) = if n =? k then None else dict_get k d.
Proof.
  unfold dict_pop.
  induction d as [|[k' v] d IH]; [destruct (n =? k); reflexivity|].
  cbn. destruct (Z.eqb_spec k' n) as [->|Hn]; cbn.
  - rewrite IH. destruct (n =? k); reflexivity.
  - rewrite IH. destruct (Z.eqb_spec k' k) as [->|Hk]; [|reflexivity].
    destruct (Z.eqb_spec n k); [congruence | reflexivity].
Qed.

Lemma dict_get_append (k n : Z) (o : O) (d : dict O) :
  dict_get k (dict_append n o d)
  = if n =? k then option_map (fun v => v ++ [o]) (dict_get k d)
    else dict_get k d.
Proof.
  induction d as [|[k' v] d IH]; [destruct (n =? k); reflexivity|].
  cbn. destruct (Z.eqb_spec k' n) as [->|Hn]; cbn.
  - destruct (n =? k); reflexivity.
  - rewrite IH. destruct (Z.eqb_spec k' k) as [->|Hk]; [|reflexivity].
    destruct (Z.eqb_spec n k); [congruence | reflexivity].
Qed.

Lemma dict_get_snoc (k n : Z) (v : list O) (d : dict O) :
  dict_get k (d ++ [(n, v)])
  = match dict_get k d with
    | Some w => Some w
    | None => if n =? k then Some v else None
    end.
Proof.
  induction d as [|[k' w] d IH]; [reflexivity|].
  cbn. destruct (k' =? k); [reflexivity | exact IH].
Qed.

(** [addOption] appends to the sequence of the option's number and leaves
    the other sequences alone. *)
Lemma contents_addOption (k : Z) (o : O) (d : Options O) :
  contents k (snd (addOption o d))
  = contents k d ++ (if number o =? k then [o] else []).
Proof.
  rewrite addOption_eq. cbn [snd]. unfold contents, dict_setdefault.
  rewrite dict_get_append.
  destruct (dict_contains (number o) d) eqn:E.
  - destruct (Z.eqb_spec (number o) k) as [<-|Hk].
    + rewrite dict_contains_get in E.
      destruct (dict_get (number o) d); [reflexivity | discriminate].
    + rewrite app_nil_r. reflexivity.
  - rewrite dict_get_snoc.
    destruct (Z.eqb_spec (number o) k) as [<-|Hk].
    + rewrite dict_get_None by exact E. reflexivity.
    + rewrite app_nil_r. destruct (dict_get k d); reflexivity.
Qed.

(** [deleteOption] empties the sequence of its number and leaves the other
    sequences alone. *)
Lemma contents_deleteOption (k n : Z) (d : Options O) :
  contents k (snd (deleteOption n d)) = if n =? k then [] else contents k d.
Proof.
  rewrite deleteOption_eq. cbn [snd]. unfold contents.
  rewrite dict_get_pop. destruct (n =? k); reflexivity.
Qed.

Lemma map_fst_dict_append (n : Z) (o : O) (d : dict O) :
  map fst (dict_append n o d) = map fst d.
Proof.
  induction d as [|[k' v] d IH]; [reflexivity|].
  cbn. destruct (k' =? n); cbn; [reflexivity | rewrite IH; reflexivity].
Qed.

Lemma dict_append_absent (n : Z) (o : O) (d : dict O) :
  dict_contains n d = false -> dict_append n o d = d.
Proof.
  induction d as [|[k' v] d IH]; [reflexivity|].
  cbn. destruct (k' =? n); [discriminate|]. cbn.
  intros Hd. rewrite (IH Hd). reflexivity.
Qed.

Lemma dict_append_snoc (n : Z) (o : O) (v : list O) (d : dict O) :
  dict_contains n d = false ->
  dict_append n o (d ++ [(n, v)]) = d ++ [(n, v ++ [o])].
Proof.
  induction d as [|[k' w] d IH]; cbn.
  - rewrite Z.eqb_refl. reflexivity.
  - destruct (k' =? n); [discriminate|]. cbn.
    intros Hd. rewrite (IH Hd). reflexivity.
Qed.

Lemma entry_ok_dict_append (o : O) (d : dict O) :
  Forall entry_ok d -> Forall entry_ok (dict_append (number o) o d).
Proof.
  induction 1 as [|[k' v] d [Hne Hall] Hd IH]; [constructor|].
  cbn. destruct (Z.eqb_spec k' (number o)) as [->|Hn].
  - constructor; [|exact Hd]. split; cbn in *.
    + destruct v; discriminate.
    + apply Forall_app. split; [exact Hall | repeat constructor].
  - constructor; [split; assumption | exact IH].
Qed.

Lemma well_formed_init : well_formed (@init O).
Proof. split; constructor. Qed.

Lemma well_formed_addOption (o : O) (d : Options O) :
  well_formed d -> well_formed (snd (addOption o d)).
Proof.
  intros [Hnd Hok]. rewrite addOption_eq. cbn [snd].
  unfold dict_setdefault. destruct (dict_contains (number o) d) eqn:E.
  - split; [rewrite map_fst_dict_append; exact Hnd|].
    apply entry_ok_dict_append, Hok.
  - rewrite dict_append_snoc by exact E. split.
    + rewrite map_app. cbn.
      apply NoDup_app; [exact Hnd | repeat constructor; intros [] |].
      intros k Hk [<-|[]].
      apply dict_contains_In in Hk. congruence.
    + apply Forall_app. split; [exact Hok|].
      repeat constructor; cbn; discriminate.
Qed.

Lemma well_formed_deleteOption (n : Z) (d : Options O) :
  well_formed d -> well_formed (snd (deleteOption n d)).
Proof.
  intros [Hnd Hok]. rewrite deleteOption_eq. cbn [snd]. unfold dict_pop.
  split.
  - clear Hok. induction d as [|[k' v] d IH]; [constructor|].
    cbn in *. inversion Hnd as [|? ? Hnotin Hnd']; subst.
    destruct (k' =? n); cbn; [apply IH, Hnd'|].
    constructor; [|apply IH, Hnd'].
    intros Hin. apply Hnotin.
    apply in_map_iff in Hin. destruct Hin as (e & He & Hin).
    apply filter_In in Hin. apply in_map_iff. exists e. tauto.
  - apply Forall_forall. intros e He. apply filter_In in He.
    rewrite Forall_forall in Hok. apply Hok, He.
Qed.

End ContainerFacts.

(** ** The iteration order of [optionList] *)

Lemma StronglySorted_app {A} (R : A -> A -> Prop) (l1 l2 : list A) :
  StronglySorted R l1 -> StronglySorted R l2 ->
  (forall x y, In x l1 -> In y l2 -> R x y) ->
  StronglySorted R (l1 ++ l2).
Proof.
  induction 1 as [|x l1 Hs IH Hx]; intros Hs2 Hcross; [exact Hs2|].
  cbn. constructor.
  - apply IH; [exact Hs2|]. intros a b Ha Hb. apply Hcross; [right|]; assumption.
  - apply Forall_app. split; [exact Hx|].
    apply Forall_forall. intros b Hb. apply Hcross; [left; reflexivity | exact Hb].
Qed.

Section OptionListFacts.

Context {O V : Type} `{OptionInstance O V}.


Lemma eval_keys_nonempty (vs : list (list O)) :
  Forall (fun v => v <> []) vs ->
  eval_keys (fun x => let* o := item0 x in Return (number o))%res vs
  = Return (map (fun v => (head_number v, v)) vs).
Proof.
  induction 1 as [|v vs Hv _ IH]; [reflexivity|].
  cbn [eval_keys map]. rewrite IH.
  destruct v as [|o v]; [contradiction|]. reflexivity.
Qed.

Lemma entry_ok_values (d : Options O) :
  Forall entry_ok d ->
  Forall (fun v => v <> []) (dict_values d)
  /\ Forall homogeneous (dict_values d).
Proof.
  induction 1 as [|[k v] d [Hne Hall] _ [IH1 IH2]]; [split; constructor|].
  cbn in *. split; constructor; try assumption.
  unfold homogeneous. destruct v as [|o v]; [contradiction|].
  cbn. inversion Hall as [|? ? Ho Hv]; subst.
  constructor; [reflexivity|].
  eapply Forall_impl; [|exact Hv]. cbn. intros; congruence.
Qed.

(** On a well-formed dictionary [optionList] raises nothing. *)
Lemma optionList_well_formed (d : Options O) :
  well_formed d -> optionList d = (Return (ordered d), d).
Proof.
  intros [_ Hok]. apply entry_ok_values in Hok. destruct Hok as [Hne _].
  unfold optionList, bind, get_options, lift, sorted.
  rewrite eval_keys_nonempty by exact Hne. cbn [rbind].
  rewrite (stable_sort_map head_number fst) by reflexivity.
  rewrite map_map. cbn [snd]. rewrite map_id. reflexivity.
Qed.

Lemma concat_sorted (groups : list (list O)) :
  StronglySorted (key_le head_number) groups ->
  Forall homogeneous groups ->
  StronglySorted (key_le number) (concat groups).
Proof.
  induction 1 as [|g gs Hs IH Hg]; intros Hhom; [constructor|].
  inversion Hhom as [|? ? Hg_hom Hgs_hom]; subst. cbn.
  apply StronglySorted_app.
  - clear -Hg_hom. unfold homogeneous in Hg_hom.
    generalize dependent (head_number g). intros n Hn.
    induction Hn as [|o g Ho Hrest IHg]; constructor; [exact IHg|].
    eapply Forall_impl; [|exact Hrest]. unfold key_le. cbn. intros; lia.
  - apply IH, Hgs_hom.
  - intros x y Hx Hy. apply in_concat in Hy. destruct Hy as (g' & Hg' & Hy).
    unfold homogeneous in *. rewrite Forall_forall in Hg, Hg_hom, Hgs_hom.
    specialize (Hg _ Hg'). specialize (Hgs_hom _ Hg').
    rewrite Forall_forall in Hgs_hom.
    unfold key_le in *. rewrite (Hg_hom _ Hx), (Hgs_hom _ Hy). exact Hg.
Qed.

Lemma with_key_homogeneous (k : Z) (g : list O) :
  homogeneous g ->
  with_key number k g = if head_number g =? k then g else [].
Proof.
  unfold homogeneous, with_key. generalize (head_number g). intros n Hn.
  induction Hn as [|o g Ho _ IH]; [destruct (n =? k); reflexivity|].
  cbn. rewrite Ho, IH. destruct (n =? k); reflexivity.
Qed.

Lemma with_key_concat (k : Z) (groups : list (list O)) :
  Forall homogeneous groups ->
  with_key number k (concat groups)
  = concat (with_key head_number k groups).
Proof.
  induction 1 as [|g gs Hg _ IH]; [reflexivity|].
  cbn [concat]. unfold with_key at 1. rewrite filter_app.
  fold (with_key number k g). fold (with_key number k (concat gs)).
  rewrite IH, with_key_homogeneous by exact Hg.
  unfold with_key. cbn [filter].
  destruct (head_number g =? k); reflexivity.
Qed.

Lemma concat_with_key_values (k : Z) (d : Options O) :
  well_formed d ->
  concat (with_key head_number k (dict_values d)) = contents k d.
Proof.
  intros [Hnd Hok]. induction Hok as [|[k' v] d [Hne Hall] _ IH].
  { reflexivity. }
  cbn in Hnd, Hne, Hall. inversion Hnd as [|? ? Hnotin Hnd']; subst.
  specialize (IH Hnd').
  assert (Hhead : head_number v = k').
  { destruct v as [|o v]; [contradiction|]. inversion Hall; assumption. }
  unfold contents, with_key, dict_values in *. cbn. rewrite Hhead.
  destruct (Z.eqb_spec k' k) as [->|Hk]; [|exact IH].
  cbn. rewrite IH.
  rewrite dict_get_None; [apply app_nil_r|].
  destruct (dict_contains k d) eqn:E; [|reflexivity].
  apply dict_contains_In in E. contradiction.
Qed.

(** The two halves of the iteration invariant, on a well-formed dictionary. *)
Lemma ordered_sorted (d : Options O) :
  well_formed d -> StronglySorted (key_le number) (ordered d).
Proof.
  intros [_ Hok]. apply entry_ok_values in Hok. destruct Hok as [_ Hhom].
  apply concat_sorted; [apply stable_sort_sorted|].
  eapply Permutation_Forall; [symmetry; apply stable_sort_perm | exact Hhom].
Qed.

Lemma ordered_with_key (k : Z) (d : Options O) :
  well_formed d -> with_key number k (ordered d) = contents k d.
Proof.
  intros Hwf. unfold ordered. rewrite with_key_concat.
  - rewrite stable_sort_with_key. apply concat_with_key_values, Hwf.
  - destruct Hwf as [_ Hok]. apply entry_ok_values in Hok.
    eapply Permutation_Forall; [symmetry; apply stable_sort_perm | apply Hok].
Qed.

End OptionListFacts.

(** ** Reachable states *)

Section Reachable.

Context {O V : Type} `{OptionInstance O V}.

Lemma reaches_well_formed h d : reaches h d -> well_formed d.
Proof.
  induction 1;
    auto using well_formed_init, well_formed_addOption,
               well_formed_deleteOption.
Qed.

Lemma reaches_contents h d :
  reaches h d -> forall k, contents k d = with_key number k h.
Proof.
  induction 1 as [|h d o _ IH|h d n _ IH]; intros k.
  - reflexivity.
  - rewrite contents_addOption, IH. unfold with_key.
    rewrite filter_app. reflexivity.
  - rewrite contents_deleteOption, IH. unfold with_key.
    clear. induction h as [|o h IHh]; [destruct (n =? k); reflexivity|].
    cbn. destruct (Z.eqb_spec (number o) n) as [->|Hn]; cbn.
    + rewrite <- IHh. destruct (n =? k); reflexivity.
    + rewrite <- IHh.
      destruct (Z.eqb_spec n k) as [->|Hk]; [|reflexivity].
      destruct (Z.eqb_spec (number o) k); [contradiction | reflexivity].
Qed.

(** In a reachable state [optionList] yields the surviving options sorted
    by number, those of one number in the order of their addition. *)
Lemma reaches_optionList h d :
  reaches h d -> optionList d = (Return (stable_sort number h), d).
Proof.
  intros Hr. pose proof (reaches_well_formed _ _ Hr) as Hwf.
  rewrite optionList_well_formed by exact Hwf. do 2 f_equal.
  apply (sorted_unique number).
  - apply ordered_sorted, Hwf.
  - apply stable_sort_sorted.
  - intros k. rewrite ordered_with_key, stable_sort_with_key by exact Hwf.
    apply reaches_contents, Hr.
Qed.

Lemma reaches_add_all os h d :
  reaches h d -> reaches (h ++ os) (add_all os d).
Proof.
  revert h d. induction os as [|o os IH]; intros h d Hr; cbn.
  - rewrite app_nil_r. exact Hr.
  - replace (h ++ o :: os) with ((h ++ [o]) ++ os)
      by (rewrite <- app_assoc; reflexivity).
    apply IH. constructor. exact Hr.
Qed.

End Reachable.

(** ** The decoding loop *)

(** The first byte of an entry packs two nibbles. *)
Lemma nibble_pack (dn ln : Z) :
  0 <= dn <= 15 -> 0 <= ln <= 15 ->
  Z.shiftl (Z.land dn 15) 4 + Z.land ln 15 = 16 * dn + ln.
Proof.
  intros Hd Hl. change 15 with (Z.ones 4).
  rewrite !Z.land_ones, Z.shiftl_mul_pow2 by lia.
  change (2 ^ 4) with 16. rewrite !Z.mod_small by lia. lia.
Qed.

Lemma nibble_high (dn ln : Z) :
  0 <= dn <= 15 -> 0 <= ln <= 15 ->
  Z.shiftr (Z.land (16 * dn + ln) 240) 4 = dn.
Proof.
  intros Hd Hl. rewrite Z.shiftr_land.
  change (Z.shiftr 240 4) with (Z.ones 4).
  rewrite Z.land_ones, Z.shiftr_div_pow2 by lia. change (2 ^ 4) with 16.
  assert ((16 * dn + ln) / 16 = dn) as ->
      by (symmetry; apply (Z.div_unique _ 16 dn ln); lia).
  apply Z.mod_small. lia.
Qed.

Lemma nibble_low (dn ln : Z) :
  0 <= dn <= 15 -> 0 <= ln <= 15 -> Z.land (16 * dn + ln) 15 = ln.
Proof.
  intros Hd Hl. change 15 with (Z.ones 4). rewrite Z.land_ones by lia.
  change (2 ^ 4) with 16.
  symmetry. apply (Z.mod_unique _ 16 dn ln); lia.
Qed.

Lemma slice_to_app {A} (l1 l2 : list A) : slice_to (len l1) (l1 ++ l2) = l1.
Proof.
  unfold slice_to, len.
  destruct (Z.ltb_spec (Z.of_nat (List.length l1)) 0); [lia|].
  rewrite Nat2Z.id, firstn_app, Nat.sub_diag, firstn_all.
  cbn. apply app_nil_r.
Qed.

Lemma slice_from_app {A} (l1 l2 : list A) :
  slice_from (len l1) (l1 ++ l2) = l2.
Proof.
  unfold slice_from, len.
  destruct (Z.ltb_spec (Z.of_nat (List.length l1)) 0); [lia|].
  rewrite Nat2Z.id, skipn_app, Nat.sub_diag, skipn_all. reflexivity.
Qed.

Section DecodeFacts.

Context {O V : Type} `{OptionInstance O V}.

Local Open Scope method_scope.

(** One turn of the loop on a non-empty input. *)
Lemma decode_loop_cons (n : Z) (dllen : byte) (rawdata : bytes) :
  decode_loop n (dllen :: rawdata)
  = match decode_entry n dllen rawdata with
    | Raise e => raise e
    | Return (Marker rest) => ret (PayloadBytes rest)
    | Return (Entry n' option rest) =>
        addOption option ;; decode_loop n' rest
    end.
Proof.
  simp decode_loop.
  change (decode_entry n dllen rawdata)
    with (proj1_sig (inspect (decode_entry n dllen rawdata))) at 2.
  generalize (inspect (decode_entry n dllen rawdata)).
  intros [[[rest|n' option rest]|e] Heq]; reflexivity.
Qed.

Lemma decode_loop_nil (n : Z) (d : Options O) :
  decode_loop n [] d = (Return (PayloadStr String.EmptyString), d).
Proof. simp decode_loop. reflexivity. Qed.

(** The bytes left by a pass are a suffix of the bytes it was given. *)
Lemma slice_from_suffix {A} (n : Z) (l : list A) :
  exists used, l = used ++ slice_from n l.
Proof.
  unfold slice_from. destruct (n <? 0).
  - exists (firstn (Z.to_nat (len l + n)) l). symmetry. apply firstn_skipn.
  - exists (firstn (Z.to_nat n) l). symmetry. apply firstn_skipn.
Qed.

Lemma read_suffix (nib v : Z) (rawdata rest : bytes) :
  readExtendedFieldValue nib rawdata = Return (v, rest) ->
  exists used, rawdata = used ++ rest.
Proof.
  unfold readExtendedFieldValue.
  destruct ((nib >=? 0) && (nib <? 13)).
  { intros [= _ <-]. exists []. reflexivity. }
  destruct (nib =? 13).
  { destruct (item0 rawdata); [|discriminate].
    intros [= _ <-]. apply slice_from_suffix. }
  destruct (nib =? 14); [|discriminate].
  destruct (struct.unpack_H _); [|discriminate].
  intros [= _ <-]. apply slice_from_suffix.
Qed.

Lemma decode_entry_suffix n dllen rawdata n' option rest :
  decode_entry n dllen rawdata = Return (Entry n' option rest) ->
  exists used, rawdata = used ++ rest.
Proof.
  unfold decode_entry. destruct (byte.unsigned dllen =? 255); [discriminate|].
  destruct (readExtendedFieldValue _ rawdata) as [[delta r1]|] eqn:E1;
    [|discriminate].
  cbn [rbind].
  destruct (readExtendedFieldValue _ r1) as [[length r2]|] eqn:E2;
    [|discriminate].
  cbn [rbind]. intros [= _ _ <-].
  apply read_suffix in E1, E2. destruct E1 as (u1 & ->), E2 as (u2 & ->).
  destruct (slice_from_suffix length r2) as (u3 & Hu3).
  exists (u1 ++ u2 ++ u3). rewrite <- !app_assoc. rewrite <- Hu3. reflexivity.
Qed.

(** The entry [encode] writes for an option decodes to an option of the
    same number built from the same bytes, and leaves what follows. *)
Lemma decode_entry_encoded `{!OptionLaws O V}
      (cur : Z) (o : O) (dn ln : Z) (ed el head rest : bytes) :
  writeExtendedFieldValue (number o - cur) = Return (dn, ed) ->
  writeExtendedFieldValue (opt_length o) = Return (ln, el) ->
  bytes_of_ints [Z.shiftl (Z.land dn 15) 4 + Z.land ln 15] = Return head ->
  exists b,
    head = [b]
    /\ decode_entry cur b (ed ++ el ++ opt_encode o ++ rest)
       = Return (Entry (number o)
                       (create_option_decode (number o) (opt_encode o))
                       rest).
Proof.
  intros Hd Hl Hhead.
  pose proof (write_nibble_range _ _ _ Hd) as Hdn.
  pose proof (write_nibble_range _ _ _ Hl) as Hln.
  rewrite nibble_pack in Hhead by lia.
  cbn [bytes_of_ints] in Hhead.
  replace ((0 <=? 16 * dn + ln) && (16 * dn + ln <? 256)) with true
    in Hhead by lia.
  cbn [rbind] in Hhead.
  assert (head = [byte.of_Z (16 * dn + ln)]) as -> by congruence.
  eexists. split; [reflexivity|].
  unfold decode_entry. rewrite byte_of_Z_small by lia.
  replace (16 * dn + ln =? 255) with false by lia.
  rewrite nibble_high, nibble_low by lia.
  rewrite (read_write _ _ _ _ Hd). cbn [rbind].
  rewrite (read_write _ _ _ _ Hl). cbn [rbind].
  rewrite length_encode, slice_to_app, slice_from_app.
  replace (cur + (number o - cur)) with (number o) by lia.
  reflexivity.
Qed.

(** Decoding the output of the encoding loop adds the options in the order
    they were written, then goes on with what follows. *)
Lemma decode_encode_loop `{!OptionLaws O V} (l : list O) :
  forall (cur : Z) (data : list bytes) (tail : bytes) (d : Options O),
    encode_loop cur l = Return data ->
    decode_loop cur (concat data ++ tail) d
    = decode_loop (last_number cur l) tail (add_all (map redecoded l) d).
Proof.
  induction l as [|o l IH]; intros cur data tail d Henc.
  - cbn in Henc. injection Henc as <-. reflexivity.
  - cbn [encode_loop] in Henc.
    destruct (writeExtendedFieldValue (number o - cur)) as [[dn ed]|] eqn:Hd;
      [|discriminate].
    cbn [rbind] in Henc.
    destruct (writeExtendedFieldValue (opt_length o)) as [[ln el]|] eqn:Hl;
      [|discriminate].
    cbn [rbind] in Henc.
    destruct (bytes_of_ints _) as [head|] eqn:Hhead; [|discriminate].
    cbn [rbind] in Henc.
    destruct (encode_loop (number o) l) as [data'|] eqn:Hrest; [|discriminate].
    cbn [rbind] in Henc. injection Henc as <-.
    destruct (decode_entry_encoded cur o dn ln ed el head
                (concat data' ++ tail) Hd Hl Hhead) as (b & -> & Hentry).
    cbn [concat]. rewrite <- !app_assoc. cbn [app].
    rewrite decode_loop_cons, Hentry.
    unfold bind. rewrite addOption_eq.
    rewrite (IH _ _ _ _ Hrest). reflexivity.
Qed.

(** What [decode] can return: the literal [''] when the input runs out, the
    bytes after a marker otherwise. *)
Lemma decode_loop_payload (rawdata : bytes) :
  forall (n : Z) (d d' : Options O) (p : payload),
    decode_loop n rawdata d = (Return p, d') ->
    p = PayloadStr String.EmptyString
    \/ exists before rest,
         rawdata = before ++ Byte.xff :: rest /\ p = PayloadBytes rest.
Proof.
  remember (List.length rawdata) as m eqn:Hm.
  revert rawdata Hm. induction m as [m IH] using lt_wf_ind.
  intros [|dllen rawdata] Hm n d d' p Hdec.
  - rewrite decode_loop_nil in Hdec. left. congruence.
  - rewrite decode_loop_cons in Hdec.
    destruct (decode_entry n dllen rawdata) as [[rest|n' option rest]|e]
      eqn:Hentry.
    + right. exists [], rest. cbn.
      unfold decode_entry in Hentry.
      destruct (Z.eqb_spec (byte.unsigned dllen) 255) as [Hff|Hff].
      * injection Hentry as <-. unfold ret in Hdec.
        split; [|congruence].
        f_equal. apply byte.unsigned_inj. rewrite Hff. reflexivity.
      * destruct (readExtendedFieldValue _ rawdata) as [[? r1]|];
          [|discriminate].
        cbn [rbind] in Hentry.
        destruct (readExtendedFieldValue _ r1) as [[? r2]|]; discriminate.
    + unfold bind in Hdec. rewrite addOption_eq in Hdec.
      pose proof (decode_entry_length _ _ _ _ _ _ Hentry) as Hlen.
      pose proof (decode_entry_suffix _ _ _ _ _ _ Hentry) as (used & Hused).
      apply (IH (List.length rest)) in Hdec; [|cbn in Hm; lia | reflexivity].
      destruct Hdec as [Hp | (before & rest' & Hb & Hp)]; [left; exact Hp|].
      right. exists (dllen :: used ++ before), rest'. split; [|exact Hp].
      rewrite Hused, Hb. cbn. rewrite <- app_assoc. reflexivity.
    + unfold raise in Hdec. discriminate.
Qed.

(** [decode] changes the container only by adding options, also when it
    raises. *)
Lemma decode_loop_adds (rawdata : bytes) :
  forall (n : Z) (d : Options O),
    exists os, snd (decode_loop n rawdata d) = add_all os d.
Proof.
  remember (List.length rawdata) as m eqn:Hm.
  revert rawdata Hm. induction m as [m IH] using lt_wf_ind.
  intros [|dllen rawdata] Hm n d.
  - exists []. reflexivity.
  - rewrite decode_loop_cons.
    destruct (decode_entry n dllen rawdata) as [[rest|n' option rest]|e]
      eqn:Hentry; try (exists []; reflexivity).
    pose proof (decode_entry_length _ _ _ _ _ _ Hentry) as Hlen.
    unfold bind. rewrite addOption_eq.
    destruct (IH (List.length rest) ltac:(cbn in Hm; lia) rest eq_refl n'
                 (dict_append (number option) option
                    (dict_setdefault (number option) d))) as [os Hos].
    exists (option :: os). rewrite Hos. reflexivity.
Qed.

Lemma decode_reaches (rawdata : bytes) (h : list O) (d : Options O) :
  reaches h d -> exists os, reaches (h ++ os) (snd (decode rawdata d)).
Proof.
  intros Hr. destruct (decode_loop_adds rawdata 0 d) as [os Hos].
  exists os. unfold decode. rewrite Hos. apply reaches_add_all, Hr.
Qed.

End DecodeFacts.

(** ** The extended-field codec: specification *)

Lemma write_in_range (v : Z) :
  0 <= v <= 65803 -> exists r, writeExtendedFieldValue v = Return r.
Proof.
  intros Hv.
  destruct (Z.leb_spec v 12); [eexists; apply write_tier_A; lia|].
  destruct (Z.leb_spec v 268); [eexists; apply write_tier_B; lia|].
  destruct (write_tier_C v) as (hi & lo & Hw & _); [lia|]. eexists; exact Hw.
Qed.

(** C1. For every integer [v] in 0..65803, [writeExtendedFieldValue v]
    yields a nibble and extension bytes that [readExtendedFieldValue] reads
    back, in front of any trailing bytes [rest], as exactly [(v, rest)]. *)
Theorem varint_round_trip (v : Z) :
  0 <= v <= 65803 ->
  exists nibble ext,
    writeExtendedFieldValue v = Return (nibble, ext)
    /\ forall rest : bytes,
         readExtendedFieldValue nibble (ext ++ rest) = Return (v, rest).
Proof.
  intros Hv.
  destruct (write_in_range v Hv) as [[nibble ext] Hw].
  exists nibble, ext. split; [exact Hw|].
  intros rest. apply read_write, Hw.
Qed.

Lemma varint_round_trip_witness :
  exists nibble ext,
    writeExtendedFieldValue 300 = Return (nibble, ext)
    /\ forall rest : bytes,
         readExtendedFieldValue nibble (ext ++ rest) = Return (300, rest).
Proof. apply (varint_round_trip 300). lia. Defined.

(** C3. The tier [writeExtendedFieldValue] selects: the value itself and no
    extension byte for 0..12; nibble 13 and one byte holding [v - 13] for
    13..268; nibble 14 and two bytes holding [v - 269], most significant
    first, for 269..65803. *)
Theorem write_tier_table (v : Z) :
  (0 <= v <= 12 -> writeExtendedFieldValue v = Return (v, []))
  /\ (13 <= v <= 268 ->
      exists b, writeExtendedFieldValue v = Return (13, [b])
                /\ byte.unsigned b = v - 13)
  /\ (269 <= v <= 65803 ->
      exists hi lo, writeExtendedFieldValue v = Return (14, [hi; lo])
                    /\ 256 * byte.unsigned hi + byte.unsigned lo = v - 269).
Proof.
  split; [apply write_tier_A|]. split.
  - intros Hv. eexists. split; [apply write_tier_B, Hv|].
    apply byte_of_Z_small. lia.
  - intros Hv. destruct (write_tier_C v Hv) as (hi & lo & Hw & Hval & _).
    exists hi, lo. auto.
Qed.

Lemma write_tier_table_witness :
  writeExtendedFieldValue 7 = Return (7, [])
  /\ (exists b, writeExtendedFieldValue 100 = Return (13, [b])
                /\ byte.unsigned b = 100 - 13)
  /\ (exists hi lo, writeExtendedFieldValue 1000 = Return (14, [hi; lo])
                    /\ 256 * byte.unsigned hi + byte.unsigned lo = 1000 - 269).
Proof.
  split; [apply (write_tier_table 7); lia|].
  split; [apply (write_tier_table 100); lia | apply (write_tier_table 1000); lia].
Defined.

(** The values [writeExtendedFieldValue] accepts are exactly 0..65803. *)
Lemma write_accepts (v : Z) :
  (exists r, writeExtendedFieldValue v = Return r) <-> 0 <= v <= 65803.
Proof.
  split.
  - intros [r Hr].
    destruct (Z.ltb_spec v 0); [rewrite write_out_of_range in Hr by lia; discriminate|].
    destruct (Z.leb_spec v 65803); [lia|].
    rewrite write_out_of_range in Hr by lia. discriminate.
  - intros Hv. destruct (write_in_range v Hv) as (r & Hr). eauto.
Qed.

(** Every value [readExtendedFieldValue] returns lies in 0..65804. *)
Lemma read_value_range (nib v : Z) (rawdata rest : bytes) :
  readExtendedFieldValue nib rawdata = Return (v, rest) -> 0 <= v <= 65804.
Proof.
  unfold readExtendedFieldValue.
  destruct ((nib >=? 0) && (nib <? 13)) eqn:EA; [intros [= <- _]; lia|].
  destruct (nib =? 13).
  { destruct (item0 rawdata) as [b|]; [|discriminate].
    cbn [rbind]. intros Heq.
    assert (v = byte.unsigned b + 13) as -> by congruence.
    pose proof (byte.unsigned_range b) as Hb. change (2 ^ 8) with 256 in Hb. lia. }
  destruct (nib =? 14); [|discriminate].
  destruct (struct.unpack_H _) as [n|] eqn:Hu; [|discriminate].
  cbn [rbind]. intros Heq. assert (v = n + 269) as -> by congruence.
  apply unpack_H_range in Hu. lia.
Qed.

(** Every value in 0..65804 is returned by [readExtendedFieldValue] on some
    input. *)
Lemma read_value_reached (v : Z) :
  0 <= v <= 65804 ->
  exists nib rawdata rest,
    readExtendedFieldValue nib rawdata = Return (v, rest).
Proof.
  intros Hv. destruct (Z.leb_spec v 65803) as [Hle|Hgt].
  - destruct (write_in_range v) as [[nib ext] Hw]; [lia|].
    exists nib, (ext ++ []), []. apply read_write, Hw.
  - assert (v = 65804) as -> by lia.
    exists 14, [Byte.xff; Byte.xff], []. reflexivity.
Qed.

(** C10. [readExtendedFieldValue] with nibble 14 and extension bytes
    [0xFF 0xFF] returns 65804 without raising, while
    [writeExtendedFieldValue 65804] raises: the values decoding can produce
    are exactly 0..65804, the values encoding accepts exactly 0..65803. *)
Theorem decode_accepts_one_more :
  (forall rest : bytes,
      readExtendedFieldValue 14 (Byte.xff :: Byte.xff :: rest)
      = Return (65804, rest))
  /\ writeExtendedFieldValue 65804 = Raise ValueError
  /\ (forall v : Z,
         (exists nib rawdata rest,
             readExtendedFieldValue nib rawdata = Return (v, rest))
         <-> 0 <= v <= 65804)
  /\ (forall v : Z,
         (exists r, writeExtendedFieldValue v = Return r) <-> 0 <= v <= 65803).
Proof.
  split; [intros rest; reflexivity|].
  split; [reflexivity|].
  split.
  - intros v. split.
    + intros (nib & rawdata & rest & Hr). eapply read_value_range, Hr.
    + apply read_value_reached.
  - apply write_accepts.
Qed.

(** ** The container: specification *)

Section ContainerSpec.

Context {O V : Type} `{OptionInstance O V}.

(** The encoding loop raises nothing but the out-of-range error of the
    codec. *)
Lemma encode_loop_raises (l : list O) :
  forall cur e, encode_loop cur l = Raise e -> e = ValueError.
Proof.
  induction l as [|o l IH]; intros cur e; cbn [encode_loop]; [discriminate|].
  destruct (writeExtendedFieldValue (number o - cur)) as [[dn ed]|e1] eqn:Hd.
  2:{ cbn [rbind]. intros [= <-].
      destruct (Z.ltb_spec (number o - cur) 0);
        [rewrite write_out_of_range in Hd by lia; congruence|].
      destruct (Z.leb_spec (number o - cur) 65803).
      - destruct (write_in_range (number o - cur)) as [r Hr]; [lia|]. congruence.
      - rewrite write_out_of_range in Hd by lia. congruence. }
  cbn [rbind].
  destruct (writeExtendedFieldValue (opt_length o)) as [[ln el]|e2] eqn:Hl.
  2:{ cbn [rbind]. intros [= <-].
      destruct (Z.ltb_spec (opt_length o) 0);
        [rewrite write_out_of_range in Hl by lia; congruence|].
      destruct (Z.leb_spec (opt_length o) 65803).
      - destruct (write_in_range (opt_length o)) as [r Hr]; [lia|]. congruence.
      - rewrite write_out_of_range in Hl by lia. congruence. }
  cbn [rbind].
  pose proof (write_nibble_range _ _ _ Hd) as Hdn.
  pose proof (write_nibble_range _ _ _ Hl) as Hln.
  rewrite nibble_pack by lia. cbn [bytes_of_ints].
  replace ((0 <=? 16 * dn + ln) && (16 * dn + ln <? 256)) with true by lia.
  cbn [rbind].
  destruct (encode_loop (number o) l) as [data|e3] eqn:Hrest;
    cbn [rbind]; [discriminate|].
  intros [= <-]. eapply IH, Hrest.
Qed.

(** An option too long for the codec makes the encoding loop raise. *)
Lemma encode_loop_too_long (l : list O) (o : O) :
  In o l -> 65804 <= opt_length o ->
  forall cur, encode_loop cur l = Raise ValueError.
Proof.
  intros Hin Hlen. induction l as [|o' l IH]; [contradiction|].
  intros cur. destruct (encode_loop cur (o' :: l)) as [data|e] eqn:Henc.
  2:{ f_equal. eapply encode_loop_raises, Henc. }
  exfalso. cbn [encode_loop] in Henc.
  destruct (writeExtendedFieldValue (number o' - cur)) as [[dn ed]|];
    [|discriminate].
  cbn [rbind] in Henc.
  destruct (writeExtendedFieldValue (opt_length o')) as [[ln el]|] eqn:Hl;
    [|discriminate].
  cbn [rbind] in Henc.
  destruct (bytes_of_ints _); [|discriminate]. cbn [rbind] in Henc.
  destruct Hin as [->|Hin].
  - rewrite write_out_of_range in Hl by lia. discriminate.
  - rewrite (IH Hin) in Henc. discriminate.
Qed.

(** [encode] returns a header when the deltas and lengths fit the codec. *)
Lemma encode_loop_returns (l : list O) :
  forall cur, encodable cur l -> exists data, encode_loop cur l = Return data.
Proof.
  induction l as [|o l IH]; intros cur Hfit; [exists []; reflexivity|].
  destruct Hfit as (Hdelta & Hlength & Hrest).
  cbn [encode_loop].
  destruct (write_in_range _ Hdelta) as [[dn ed] Hd].
  destruct (write_in_range _ Hlength) as [[ln el] Hl].
  rewrite Hd, Hl. cbn [rbind].
  pose proof (write_nibble_range _ _ _ Hd) as Hdn.
  pose proof (write_nibble_range _ _ _ Hl) as Hln.
  rewrite nibble_pack by lia. cbn [bytes_of_ints].
  replace ((0 <=? 16 * dn + ln) && (16 * dn + ln <? 256)) with true by lia.
  cbn [rbind]. destruct (IH _ Hrest) as [data ->]. cbn [rbind]. eauto.
Qed.

Lemma encode_returns (h : list O) (d : Options O) :
  reaches h d -> encodable 0 (stable_sort number h) ->
  exists header, encode d = (Return header, d).
Proof.
  intros Hr Hfit. unfold encode, bind, lift, ret.
  rewrite (reaches_optionList _ _ Hr).
  destruct (encode_loop_returns _ _ Hfit) as [data ->]. eauto.
Qed.


(** C4. The out-of-range error: [writeExtendedFieldValue] raises it for
    every value from 65804 on and returns for 0..65803;
    [readExtendedFieldValue] raises it for nibble 15; [decode] and
    [encode] hand it on to their caller: an entry whose delta nibble is 15
    makes [decode] raise it, an option of length 65804 or more makes
    [encode] raise it. *)
Theorem out_of_range_errors :
  (forall v, 65804 <= v -> writeExtendedFieldValue v = Raise ValueError)
  /\ (forall v, 0 <= v <= 65803 ->
                exists r, writeExtendedFieldValue v = Return r)
  /\ (forall rawdata, readExtendedFieldValue 15 rawdata = Raise ValueError)
  /\ (forall dllen rawdata (d : Options O),
         byte.unsigned dllen <> 255 ->
         Z.shiftr (Z.land (byte.unsigned dllen) 240) 4 = 15 ->
         fst (decode (dllen :: rawdata) d) = Raise ValueError)
  /\ (forall (d : Options O) l o,
         fst (optionList d) = Return l ->
         In o l -> 65804 <= opt_length o ->
         fst (encode d) = Raise ValueError).
Proof.
  split; [intros v Hv; apply write_out_of_range; lia|].
  split; [apply write_in_range|].
  split; [intros rawdata; reflexivity|].
  split.
  - intros dllen rawdata d Hff Hnib. unfold decode.
    rewrite decode_loop_cons. unfold decode_entry.
    destruct (Z.eqb_spec (byte.unsigned dllen) 255); [contradiction|].
    rewrite Hnib. reflexivity.
  - intros d l o Hl Hin Hlen. unfold encode, bind, lift.
    destruct (optionList d) as [[l'|e] d']; cbn [fst] in Hl; [|discriminate].
    injection Hl as ->.
    rewrite (encode_loop_too_long l o Hin Hlen). reflexivity.
Qed.

End ContainerSpec.

Lemma out_of_range_errors_witness :
  writeExtendedFieldValue 70000 = Raise ValueError
  /\ (exists r, writeExtendedFieldValue 65803 = Return r)
  /\ fst (decode [Byte.xf0; Byte.x41] (@init RawOption)) = Raise ValueError.
Proof.
  destruct (@out_of_range_errors RawOption bytes _) as (Hw & Hok & _ & Hd & _).
  split; [apply Hw; lia|].
  split; [apply Hok; lia|].
  apply Hd; [vm_compute; discriminate | reflexivity].
Defined.

(** Filtering by key commutes with a map that respects the keys. *)
Lemma with_key_map {A B} (keyA : A -> Z) (keyB : B -> Z) (f : A -> B)
      (k : Z) (l : list A) :
  (forall x, keyB (f x) = keyA x) ->
  with_key keyB k (map f l) = map f (with_key keyA k l).
Proof.
  intros Hf. unfold with_key. induction l as [|x l IH]; [reflexivity|].
  cbn. rewrite Hf, IH. destruct (keyA x =? k); reflexivity.
Qed.

Section IterationAndRoundTrip.

Context {O V : Type} `{OptionInstance O V}.

(** C6. In every reachable state, [optionList()] returns, without raising
    and without changing the container, all the stored options (for each
    number, exactly the sequence [getOption] returns, which is the
    sequence of the surviving options of that number in the order they
    were added), in ascending order of number. *)
Theorem optionList_invariant (h : list O) (d : Options O) :
  reaches h d ->
  exists l,
    optionList d = (Return l, d)
    /\ StronglySorted (fun a b => number a <= number b) l
    /\ (forall n, getOption n d = (Return (with_key number n l), d))
    /\ (forall n, with_key number n l = with_key number n h)
    /\ Permutation l h.
Proof.
  intros Hr. exists (stable_sort number h).
  split; [apply reaches_optionList, Hr|].
  split; [apply stable_sort_sorted|].
  split; [|split].
  - intros n. rewrite getOption_eq, stable_sort_with_key.
    rewrite (reaches_contents _ _ Hr). reflexivity.
  - intros n. apply stable_sort_with_key.
  - apply stable_sort_perm.
Qed.

(** Decoding a header that [encode] returned for the options added to a
    fresh container. *)
Lemma round_trip_of_header `{!OptionLaws O V}
        (options : list O) (header : bytes) :
  fst (encode (add_all options init)) = Return header ->
  exists d' l',
    decode header init = (Return (PayloadStr String.EmptyString), d')
    /\ optionList d' = (Return l', d')
    /\ map wire l' = map wire (stable_sort number options)
    /\ StronglySorted (fun a b => number a <= number b) l'
    /\ (forall n, map wire (with_key number n l')
                  = map wire (with_key number n options)).
Proof.
  intros Henc.
  pose proof (reaches_add_all options [] init reaches_init) as Hr.
  cbn [app] in Hr.
  unfold encode, bind, lift, ret in Henc.
  rewrite (reaches_optionList _ _ Hr) in Henc.
  destruct (encode_loop 0 (stable_sort number options)) as [data|] eqn:Hloop;
    [|discriminate].
  cbn [fst] in Henc. injection Henc as <-.
  set (sorted_options := stable_sort number options) in *.
  exists (add_all (map redecoded sorted_options) init),
         (map redecoded sorted_options).
  assert (Hnum : forall o, number (redecoded o) = number o)
    by (intros o; apply number_create_decode).
  assert (Hwire : forall l, map wire (map redecoded l) = map wire l).
  { intros l. rewrite map_map. apply map_ext. intros o. unfold wire.
    rewrite Hnum. unfold redecoded. rewrite encode_create_decode.
    reflexivity. }
  split; [|split; [|split; [|split]]].
  - unfold decode. rewrite <- (app_nil_r (concat data)).
    rewrite (decode_encode_loop _ _ _ _ _ Hloop). apply decode_loop_nil.
  - pose proof (reaches_add_all (map redecoded sorted_options) [] init
                  reaches_init) as Hr'.
    cbn [app] in Hr'. rewrite (reaches_optionList _ _ Hr').
    rewrite (stable_sort_map number number redecoded) by exact Hnum.
    unfold sorted_options.
    rewrite (stable_sort_sorted_id number (stable_sort number options))
      by apply stable_sort_sorted.
    reflexivity.
  - apply Hwire.
  - pose proof (stable_sort_sorted number (map redecoded sorted_options))
      as Hs.
    rewrite (stable_sort_map number number redecoded) in Hs by exact Hnum.
    unfold sorted_options in *.
    rewrite (stable_sort_sorted_id number (stable_sort number options)) in Hs
      by apply stable_sort_sorted.
    exact Hs.
  - intros n.
    rewrite (with_key_map number number redecoded) by exact Hnum.
    rewrite Hwire. unfold sorted_options.
    rewrite stable_sort_with_key. reflexivity.
Qed.

(** The condition on the options is met when every number and every length
    lies in 0..65803. *)
Lemma encodable_sorted_in_range (l : list O) :
  StronglySorted (key_le number) l ->
  Forall (fun o => 0 <= number o <= 65803 /\ 0 <= opt_length o <= 65803) l ->
  forall cur, 0 <= cur -> Forall (fun o => cur <= number o) l ->
              encodable cur l.
Proof.
  induction 1 as [|o l Hs IH Ho]; intros Hrange cur Hcur Hlow; [exact I|].
  inversion Hrange as [|? ? [Hn Hl] Hrange']; subst.
  inversion Hlow as [|? ? Hcur_o Hlow']; subst.
  cbn [encodable]. split; [lia|]. split; [exact Hl|].
  apply IH; [exact Hrange' | lia | exact Ho].
Qed.

Lemma encodable_in_range (options : list O) :
  Forall (fun o => 0 <= number o <= 65803 /\ 0 <= opt_length o <= 65803)
         options ->
  encodable 0 (stable_sort number options).
Proof.
  intros Hrange.
  assert (Hrange' : Forall (fun o => 0 <= number o <= 65803
                                     /\ 0 <= opt_length o <= 65803)
                           (stable_sort number options))
    by (eapply Permutation_Forall;
        [symmetry; apply stable_sort_perm | exact Hrange]).
  apply encodable_sorted_in_range;
    [apply stable_sort_sorted | exact Hrange' | lia|].
  eapply Forall_impl; [|exact Hrange']. cbn. intros o [Hn _]. lia.
Qed.

(** C2, as the code has it.  Options added to a fresh container in any
    order, such that in ascending order of number every delta to the number
    before (to 0 for the first) and every length lies in 0..65803:
    [encode()] returns a header, and decoding the header into a fresh
    container gives a container whose [optionList()] yields options with the
    numbers and bytes of the originals, in ascending order of number, those
    of one number in the order they were added. *)
Theorem container_round_trip `{!OptionLaws O V} (options : list O) :
  encodable 0 (stable_sort number options) ->
  exists header d' l',
    encode (add_all options init) = (Return header, add_all options init)
    /\ decode header init = (Return (PayloadStr String.EmptyString), d')
    /\ optionList d' = (Return l', d')
    /\ map wire l' = map wire (stable_sort number options)
    /\ StronglySorted (fun a b => number a <= number b) l'
    /\ (forall n, map wire (with_key number n l')
                  = map wire (with_key number n options)).
Proof.
  intros Hfit.
  pose proof (reaches_add_all options [] init reaches_init) as Hr.
  cbn [app] in Hr.
  destruct (encode_returns _ _ Hr Hfit) as [header Henc].
  destruct (round_trip_of_header options header) as (d' & l' & Hdec);
    [rewrite Henc; reflexivity|].
  exists header, d', l'. split; [exact Henc | exact Hdec].
Qed.

End IterationAndRoundTrip.

#[export] Instance RawOption_laws : OptionLaws RawOption bytes.
Proof. split; reflexivity. Qed.

Example encode_sample :
  fst (encode (add_all sample_options init)) = Return sample_header.
Proof. reflexivity. Qed.

Lemma optionList_invariant_witness :
  exists l,
    optionList (add_all sample_options init)
    = (Return l, add_all sample_options init)
    /\ StronglySorted (fun a b => number a <= number b) l
    /\ (forall n, getOption n (add_all sample_options init)
                  = (Return (with_key number n l),
                     add_all sample_options init))
    /\ (forall n, with_key number n l = with_key number n sample_options)
    /\ Permutation l sample_options.
Proof.
  apply (optionList_invariant sample_options).
  apply (reaches_add_all sample_options [] init). constructor.
Defined.

Lemma container_round_trip_witness :
  exists header d' l',
    encode (add_all sample_options init)
    = (Return header, add_all sample_options init)
    /\ decode header init = (Return (PayloadStr String.EmptyString), d')
    /\ optionList d' = (Return l', d')
    /\ map wire l' = map wire (stable_sort number sample_options)
    /\ StronglySorted (fun a b => number a <= number b) l'
    /\ (forall n, map wire (with_key number n l')
                  = map wire (with_key number n sample_options)).
Proof.
  apply (container_round_trip sample_options).
  vm_compute. intuition discriminate.
Defined.

(** C2, counterexample.  A container that holds one option of number 70000:
    [encode()] raises [ValueError], so there is no output to decode; the
    same happens for a value of 65804 bytes or more. *)
Lemma encode_large_number_raises :
  encode (add_all [{| raw_number := 70000; raw_value := [] |}] init)
  = (Raise ValueError, [(70000, [{| raw_number := 70000; raw_value := [] |}])]).
Proof. reflexivity. Qed.

Section DecodeSpec.

Context {O V : Type} `{OptionInstance O V}.



(** An input that begins with the marker: the payload is what follows. *)
Lemma decode_marker (rest : bytes) (d : Options O) :
  decode (Byte.xff :: rest) d = (Return (PayloadBytes rest), d).
Proof. unfold decode. rewrite decode_loop_cons. reflexivity. Qed.

(** An input that holds no byte 0xFF: when [decode] returns, it returns
    the literal ['']. *)
Lemma decode_no_marker (rawdata : bytes) (d d' : Options O) (p : payload) :
  ~ In Byte.xff rawdata ->
  decode rawdata d = (Return p, d') ->
  p = PayloadStr String.EmptyString.
Proof.
  intros Hno Hdec. apply decode_loop_payload in Hdec.
  destruct Hdec as [Hp | (before & rest & -> & _)]; [exact Hp|].
  exfalso. apply Hno, in_elt.
Qed.

(** The single-value view: what its accessors do to the container. *)
Lemma setter_None (n : Z) (d : Options O) :
  property_set (_single_value_view n) None d = (Return None, dict_pop n d).
Proof.
  unfold property_set, _single_value_view, _setter, fset, bind.
  rewrite deleteOption_eq. reflexivity.
Qed.

Lemma deleter_with_value (n : Z) (value : option V) (args : list (option V))
      (d : Options O) :
  _deleter n (value :: args) d = (Return None, dict_pop n d).
Proof. unfold _deleter, bind. rewrite deleteOption_eq. reflexivity. Qed.

Lemma setter_value (n : Z) (v : V) (d : Options O) :
  property_set (_single_value_view n) (Some v) d
  = (Return None,
     snd (addOption (create_option_value n v) (snd (deleteOption n d)))).
Proof.
  unfold property_set, _single_value_view, _setter, fset, bind.
  rewrite deleteOption_eq. reflexivity.
Qed.

(** The states the setter of a view produces are reachable. *)
Lemma setter_reaches (n : Z) (value : option V) (h : list O) (d : Options O) :
  reaches h d ->
  exists h', reaches h' (snd (property_set (_single_value_view n) value d)).
Proof.
  intros Hr. destruct value as [v|].
  - rewrite setter_value. cbn [snd]. eexists.
    apply reaches_add, reaches_delete, Hr.
  - rewrite setter_None. cbn [snd]. rewrite <- deleteOption_eq_state.
    eexists. apply reaches_delete, Hr.
Qed.

Lemma property_delete_raises (n : Z) (d : Options O) :
  property_delete (_single_value_view n) d = (Raise TypeError, d).
Proof. reflexivity. Qed.

End DecodeSpec.



(** C7, at the empty input.  [decode] leaves the container empty and returns
    the literal [''], a [str]; the payload after a marker is a [bytes]
    object, and the two are different values. *)
Theorem decode_empty_returns_str :
  decode [] (@init RawOption) = (Return (PayloadStr String.EmptyString), init)
  /\ PayloadStr String.EmptyString <> PayloadBytes []
  /\ decode (Byte.xff :: [Byte.x70; Byte.x61; Byte.x79]) (@init RawOption)
     = (Return (PayloadBytes [Byte.x70; Byte.x61; Byte.x79]), init).
Proof. split; [reflexivity | split; [discriminate | reflexivity]]. Qed.

(** C8, on a container that holds one option under number 23.  Deleting the
    view raises [TypeError] and keeps the option; setting the view to [None]
    removes it. *)
Theorem single_value_view_delete_differs :
  let option := {| raw_number := 23; raw_value := [Byte.x01] |} in
  let d := snd (addOption option init) in
  property_delete (_single_value_view 23) d = (Raise TypeError, d)
  /\ getOption 23 (snd (property_delete (_single_value_view 23) d))
     = (Return [option], d)
  /\ property_set (_single_value_view 23) None d = (Return None, init)
  /\ getOption 23 (snd (property_set (_single_value_view 23) None d))
     = (Return [], init).
Proof. cbv zeta. split; [|split; [|split]]; reflexivity. Qed.

(** ** Further properties of the extended-field codec *)

Lemma read_tiers (nib v : Z) (rawdata rest : bytes) :
  readExtendedFieldValue nib rawdata = Return (v, rest) ->
  (0 <= nib <= 12 /\ v = nib /\ rawdata = rest)
  \/ (nib = 13 /\ exists b, rawdata = b :: rest /\ v = byte.unsigned b + 13)
  \/ (nib = 14 /\ exists hi lo,
         rawdata = hi :: lo :: rest
         /\ v = 256 * byte.unsigned hi + byte.unsigned lo + 269).
Proof.
  unfold readExtendedFieldValue.
  destruct ((nib >=? 0) && (nib <? 13)) eqn:EA.
  { intros Heq. left. assert (v = nib /\ rest = rawdata) as [-> ->]
      by (split; congruence).
    split; [lia | split; reflexivity]. }
  destruct (Z.eqb_spec nib 13) as [->|H13].
  { destruct rawdata as [|b tl]; [discriminate|]. cbn [item0 rbind].
    intros Heq. right. left. split; [reflexivity|]. exists b.
    change (slice_from 1 (b :: tl)) with tl in Heq.
    split; congruence. }
  destruct (Z.eqb_spec nib 14) as [->|H14]; [|discriminate].
  destruct rawdata as [|hi [|lo tl]]; try discriminate.
  change (slice_to 2 (hi :: lo :: tl)) with [hi; lo].
  change (slice_from 2 (hi :: lo :: tl)) with tl.
  unfold struct.unpack_H. cbn [rbind]. intros Heq.
  right. right. split; [reflexivity|]. exists hi, lo. split; congruence.
Qed.

(** X1. What [readExtendedFieldValue] consumes and returns, by nibble: nothing
    and the nibble itself for 0..12; one byte [b] and [b + 13] for 13; two
    bytes and their big-endian value plus 269 for 14; and nothing else. *)
Theorem read_tier_table (nib v : Z) (rawdata rest : bytes) :
  readExtendedFieldValue nib rawdata = Return (v, rest)
  <-> (0 <= nib <= 12 /\ v = nib /\ rawdata = rest)
      \/ (nib = 13
          /\ exists b, rawdata = b :: rest /\ v = byte.unsigned b + 13)
      \/ (nib = 14
          /\ exists hi lo,
               rawdata = hi :: lo :: rest
               /\ v = 256 * byte.unsigned hi + byte.unsigned lo + 269).
Proof.
  split; [apply read_tiers|].
  intros [(Hn & -> & ->) | [(-> & b & -> & ->) | (-> & hi & lo & -> & ->)]].
  - apply read_tier_A, Hn.
  - apply read_tier_B.
  - apply read_tier_C.
Qed.

Lemma read_tier_table_witness :
  exists hi lo,
    [Byte.x01; Byte.x02; Byte.x03] = hi :: lo :: [Byte.x03]
    /\ 527 = 256 * byte.unsigned hi + byte.unsigned lo + 269.
Proof.
  destruct (proj1 (read_tier_table 14 527 [Byte.x01; Byte.x02; Byte.x03]
                     [Byte.x03]) eq_refl)
    as [(Hn & _) | [(Hn & _) | (_ & Hex)]]; [lia | lia | exact Hex].
Defined.

Lemma read_raises (nib : Z) (rawdata : bytes) (e : exn) :
  readExtendedFieldValue nib rawdata = Raise e ->
  e = ValueError \/ e = IndexError \/ e = StructError.
Proof.
  unfold readExtendedFieldValue.
  destruct ((nib >=? 0) && (nib <? 13)); [discriminate|].
  destruct (nib =? 13).
  { destruct rawdata; [|discriminate]. cbn [item0 rbind].
    intros [= <-]. auto. }
  destruct (nib =? 14); [|intros [= <-]; auto].
  destruct (slice_to 2 rawdata) as [|? [|? [|? ?]]];
    unfold struct.unpack_H; cbn [rbind]; intros Heq;
    try discriminate Heq; injection Heq as <-; auto.
Qed.

(** X2. When [readExtendedFieldValue] raises, and what: [ValueError] exactly for
    a nibble outside 0..14, [IndexError] exactly for nibble 13 on an empty
    input, [struct.error] exactly for nibble 14 on fewer than two bytes. *)
Theorem read_errors (nib : Z) (rawdata : bytes) (e : exn) :
  readExtendedFieldValue nib rawdata = Raise e
  <-> (e = ValueError /\ (nib < 0 \/ 15 <= nib))
      \/ (e = IndexError /\ nib = 13 /\ rawdata = [])
      \/ (e = StructError /\ nib = 14 /\ (List.length rawdata < 2)%nat).
Proof.
  split.
  - unfold readExtendedFieldValue.
    destruct ((nib >=? 0) && (nib <? 13)) eqn:EA; [discriminate|].
    destruct (Z.eqb_spec nib 13) as [->|H13].
    { destruct rawdata as [|b tl]; [|discriminate].
      cbn [item0 rbind]. intros [= <-]. right. left. auto. }
    destruct (Z.eqb_spec nib 14) as [->|H14].
    { destruct rawdata as [|hi [|lo tl]]; try discriminate;
        cbn; intros [= <-]; right; right; repeat split; lia. }
    intros [= <-]. left. split; [reflexivity | lia].
  - intros [[-> Hn] | [(-> & -> & ->) | (-> & -> & Hlen)]].
    + apply read_reserved, Hn.
    + reflexivity.
    + destruct rawdata as [|hi [|lo tl]]; [reflexivity | reflexivity|].
      cbn in Hlen. lia.
Qed.

(** X3. The encoding is canonical: what [readExtendedFieldValue] decodes to a
    value other than 65804 is, nibble and consumed bytes, what
    [writeExtendedFieldValue] produces for that value. *)
Theorem write_read (nib v : Z) (rawdata rest : bytes) :
  readExtendedFieldValue nib rawdata = Return (v, rest) ->
  v <> 65804 ->
  exists used,
    rawdata = used ++ rest
    /\ writeExtendedFieldValue v = Return (nib, used).
Proof.
  intros Hread Hv.
  destruct (read_tiers _ _ _ _ Hread)
    as [(Hn & -> & ->) | [(-> & b & -> & ->) | (-> & hi & lo & -> & ->)]].
  - exists []. split; [reflexivity | apply write_tier_A, Hn].
  - exists [b]. split; [reflexivity|].
    pose proof (byte.unsigned_range b) as Hb. change (2 ^ 8) with 256 in Hb.
    rewrite write_tier_B by lia.
    replace (byte.unsigned b + 13 - 13) with (byte.unsigned b) by lia.
    rewrite byte.of_Z_unsigned. reflexivity.
  - exists [hi; lo]. split; [reflexivity|].
    pose proof (byte.unsigned_range hi) as Hhi.
    pose proof (byte.unsigned_range lo) as Hlo.
    change (2 ^ 8) with 256 in Hhi, Hlo.
    destruct (write_tier_C (256 * byte.unsigned hi + byte.unsigned lo + 269))
      as (hi' & lo' & Hw & Hval & _); [lia|].
    pose proof (byte.unsigned_range hi') as Hhi'.
    pose proof (byte.unsigned_range lo') as Hlo'.
    change (2 ^ 8) with 256 in Hhi', Hlo'.
    assert (hi' = hi) as -> by (apply byte.unsigned_inj; lia).
    assert (lo' = lo) as -> by (apply byte.unsigned_inj; lia).
    exact Hw.
Qed.

Lemma write_read_witness :
  exists used,
    [Byte.x01; Byte.x02; Byte.x03] = used ++ [Byte.x03]
    /\ writeExtendedFieldValue 527 = Return (14, used).
Proof.
  apply (write_read 14 527 [Byte.x01; Byte.x02; Byte.x03] [Byte.x03]);
    [reflexivity | lia].
Defined.

(** ** Further properties of the container *)

Section ContainerExtras.

Context {O V : Type} `{OptionInstance O V}.

Lemma contents_add_all (k : Z) (os : list O) :
  forall d : Options O,
    contents k (add_all os d) = contents k d ++ with_key number k os.
Proof.
  induction os as [|o os IH]; intros d; [symmetry; apply app_nil_r|].
  cbn [add_all fold_left]. fold (add_all os (snd (addOption o d))).
  rewrite IH, contents_addOption, <- app_assoc. f_equal.
  unfold with_key. cbn [filter]. destruct (number o =? k); reflexivity.
Qed.

Lemma dict_get_In (k : Z) (v : list O) (d : dict O) :
  dict_get k d = Some v -> In (k, v) d.
Proof.
  induction d as [|[k' w] d IH]; [discriminate|].
  cbn. destruct (Z.eqb_spec k' k) as [->|Hk].
  - intros [= ->]. left. reflexivity.
  - intros Hget. right. apply IH, Hget.
Qed.

(** X5. The invariant of the dictionary: in every reachable state the keys are
    distinct, and the sequence stored under a key is not empty and holds
    only options of that number. *)
Theorem container_invariant (h : list O) (d : Options O) :
  reaches h d ->
  NoDup (map fst d)
  /\ forall k v, dict_get k d = Some v ->
                 v <> [] /\ Forall (fun o => number o = k) v.
Proof.
  intros Hr. destruct (reaches_well_formed _ _ Hr) as [Hnd Hok].
  split; [exact Hnd|]. intros k v Hget.
  apply dict_get_In in Hget. rewrite Forall_forall in Hok.
  apply (Hok _ Hget).
Qed.

(** X6. [addOption] appends the option to the sequence [getOption] returns for
    its number and leaves the sequence of every other number as it was, in
    any state of the dictionary. *)
Theorem getOption_addOption (d : Options O) (o : O) (k : Z) :
  exists l,
    getOption k d = (Return l, d)
    /\ fst (getOption k (snd (addOption o d)))
       = Return (l ++ if number o =? k then [o] else []).
Proof.
  exists (contents k d). split; [apply getOption_eq|].
  rewrite getOption_eq. cbn [fst]. rewrite contents_addOption. reflexivity.
Qed.

(** X7. [deleteOption] leaves nothing under its number and leaves the sequence
    of every other number as it was; on an absent number it changes
    nothing. *)
Theorem getOption_deleteOption (d : Options O) (n k : Z) :
  fst (getOption k (snd (deleteOption n d)))
  = (if n =? k then Return [] else fst (getOption k d))
  /\ (fst (getOption n d) = Return [] -> well_formed d ->
      snd (deleteOption n d) = d).
Proof.
  split.
  - rewrite !getOption_eq. cbn [fst]. rewrite contents_deleteOption.
    destruct (n =? k); reflexivity.
  - rewrite getOption_eq, deleteOption_eq. cbn [fst snd]. unfold contents.
    intros Hget [_ Hok]. apply dict_pop_absent.
    rewrite dict_contains_get.
    destruct (dict_get n d) as [v|] eqn:Hv; [|reflexivity].
    apply dict_get_In in Hv. rewrite Forall_forall in Hok.
    destruct (Hok _ Hv) as [Hne _]. cbn in Hne. congruence.
Qed.

(** X8. What [optionList] and [encode] return depends only on the sequences
    stored under each number, not on the order in which the numbers entered
    the dictionary. *)
Theorem optionList_extensional (d1 d2 : Options O) :
  well_formed d1 -> well_formed d2 ->
  (forall k, fst (getOption k d1) = fst (getOption k d2)) ->
  fst (optionList d1) = fst (optionList d2)
  /\ fst (encode d1) = fst (encode d2).
Proof.
  intros Hwf1 Hwf2 Hget.
  assert (Hord : ordered d1 = ordered d2).
  { apply (sorted_unique number); try (apply ordered_sorted; assumption).
    intros k. rewrite !ordered_with_key by assumption.
    specialize (Hget k). rewrite !getOption_eq in Hget. cbn [fst] in Hget.
    congruence. }
  unfold encode, bind, lift, ret.
  rewrite !optionList_well_formed by assumption. rewrite Hord.
  split; [reflexivity|].
  destruct (encode_loop 0 (ordered d2)); reflexivity.
Qed.

Lemma eval_keys_empty_group (vs : list (list O)) :
  In [] vs ->
  eval_keys (fun x => let* o := item0 x in Return (number o))%res vs
  = Raise IndexError.
Proof.
  induction vs as [|v vs IH]; [contradiction|].
  intros [->|Hin]; [reflexivity|].
  cbn [eval_keys]. destruct v as [|o v]; [reflexivity|].
  cbn [item0 rbind]. rewrite (IH Hin). reflexivity.
Qed.

(** X9. [optionList] takes the number of a group from its first option: it
    raises [IndexError] when the dictionary stores an empty sequence, and
    returns otherwise; the dictionary is unchanged either way. *)
Theorem optionList_empty_group (d : Options O) :
  (In [] (dict_values d) -> optionList d = (Raise IndexError, d))
  /\ (~ In [] (dict_values d) -> exists l, optionList d = (Return l, d)).
Proof.
  split.
  - intros Hin. unfold optionList, bind, get_options, lift, sorted.
    rewrite (eval_keys_empty_group _ Hin). reflexivity.
  - intros Hno. unfold optionList, bind, get_options, lift, sorted.
    rewrite eval_keys_nonempty.
    + cbn [rbind]. unfold ret. eauto.
    + apply Forall_forall. intros v Hv ->. contradiction.
Qed.

Lemma encode_loop_encodable (l : list O) :
  forall cur data, encode_loop cur l = Return data -> encodable cur l.
Proof.
  induction l as [|o l IH]; intros cur data Henc; [exact I|].
  cbn [encode_loop] in Henc.
  destruct (writeExtendedFieldValue (number o - cur)) as [[dn ed]|] eqn:Hd;
    [|discriminate].
  cbn [rbind] in Henc.
  destruct (writeExtendedFieldValue (opt_length o)) as [[ln el]|] eqn:Hl;
    [|discriminate].
  cbn [rbind] in Henc.
  destruct (bytes_of_ints _); [|discriminate]. cbn [rbind] in Henc.
  destruct (encode_loop (number o) l) as [data'|] eqn:Hrest; [|discriminate].
  cbn [encodable]. split; [|split].
  - apply write_accepts. eauto.
  - apply write_accepts. eauto.
  - eapply IH, Hrest.
Qed.

(** X10. When [encode] returns: in a reachable state, exactly when the delta of
    every option to the option before it in ascending order (to 0 for the
    first) and the length of every option lie in 0..65803; what it raises
    otherwise is [ValueError]. *)
Theorem encode_returns_iff (h : list O) (d : Options O) :
  reaches h d ->
  ((exists header, fst (encode d) = Return header)
   <-> encodable 0 (stable_sort number h))
  /\ (forall e, fst (encode d) = Raise e -> e = ValueError).
Proof.
  intros Hr. unfold encode, bind, lift, ret.
  rewrite (reaches_optionList _ _ Hr).
  destruct (encode_loop 0 (stable_sort number h)) as [data|e'] eqn:Hloop;
    cbn [fst].
  - split; [|discriminate]. split; [|eauto].
    intros _. eapply encode_loop_encodable, Hloop.
  - split.
    + split; [intros [header Hh]; discriminate|].
      intros Hfit. destruct (encode_loop_returns _ _ Hfit) as [data Hdata].
      congruence.
    + intros e [= <-]. eapply encode_loop_raises, Hloop.
Qed.

End ContainerExtras.

(** ** Further properties of [decode] *)

Section DecodeExtras.

Context {O V : Type} `{OptionInstance O V}.




(** X14. [decode] only adds options, also when it raises: what [getOption]
    returned before the call is a prefix of what it returns after. *)
Theorem decode_only_adds (rawdata : bytes) (d : Options O) :
  exists os,
    snd (decode rawdata d) = add_all os d
    /\ forall k, fst (getOption k (snd (decode rawdata d)))
                 = Return (contents k d ++ with_key number k os).
Proof.
  destruct (decode_loop_adds rawdata 0 d) as [os Hos].
  exists os. unfold decode. split; [exact Hos|].
  intros k. rewrite getOption_eq, Hos. cbn [fst].
  rewrite contents_add_all. reflexivity.
Qed.

(** X15. A payload of bytes comes from a marker: when [decode] returns bytes,
    they are the bytes that follow a byte 0xFF of the input. *)
Theorem decode_payload_follows_marker (rawdata rest : bytes)
        (d d' : Options O) :
  decode rawdata d = (Return (PayloadBytes rest), d') ->
  exists before, rawdata = before ++ Byte.xff :: rest.
Proof.
  intros Hdec. apply decode_loop_payload in Hdec.
  destruct Hdec as [Hp | (before & rest' & Hraw & Hp)]; [discriminate|].
  exists before. congruence.
Qed.

Lemma decode_entry_raises (n : Z) (dllen : byte) (rawdata : bytes) (e : exn) :
  decode_entry n dllen rawdata = Raise e ->
  e = ValueError \/ e = IndexError \/ e = StructError.
Proof.
  unfold decode_entry. destruct (byte.unsigned dllen =? 255); [discriminate|].
  destruct (readExtendedFieldValue _ rawdata) as [[delta r1]|e1] eqn:E1.
  2:{ cbn [rbind]. intros [= <-]. eapply read_raises, E1. }
  cbn [rbind].
  destruct (readExtendedFieldValue _ r1) as [[length r2]|e2] eqn:E2;
    [discriminate|].
  cbn [rbind]. intros [= <-]. eapply read_raises, E2.
Qed.

(** X16. The exceptions [decode] raises are those of the codec: [ValueError]
    (nibble 15), [IndexError] and [struct.error] (missing extension
    bytes). *)
Theorem decode_errors (rawdata : bytes) (d : Options O) (e : exn) :
  fst (decode rawdata d) = Raise e ->
  e = ValueError \/ e = IndexError \/ e = StructError.
Proof.
  unfold decode. generalize 0 as n. revert d.
  remember (List.length rawdata) as m eqn:Hm.
  revert rawdata Hm. induction m as [m IH] using lt_wf_ind.
  intros [|dllen rawdata] Hm d n.
  - rewrite decode_loop_nil. discriminate.
  - rewrite decode_loop_cons.
    destruct (decode_entry n dllen rawdata) as [[rest|n' option rest]|e']
      eqn:Hentry.
    + discriminate.
    + pose proof (decode_entry_length _ _ _ _ _ _ Hentry) as Hlen.
      unfold bind. rewrite addOption_eq.
      apply (IH (List.length rest)); [cbn in Hm; lia | reflexivity].
    + cbn. intros [= <-]. eapply decode_entry_raises, Hentry.
Qed.

End DecodeExtras.

(** ** Properties of the views *)

Section ViewExtras.

Context {O V : Type} `{OptionInstance O V}.

Lemma dict_contains_pop (n : Z) (d : dict O) :
  dict_contains n (dict_pop n d) = false.
Proof.
  rewrite dict_contains_get, dict_get_pop, Z.eqb_refl. reflexivity.
Qed.

Lemma dict_pop_snoc (n : Z) (v : list O) (d : dict O) :
  dict_pop n (dict_pop n d ++ [(n, v)]) = dict_pop n d.
Proof.
  unfold dict_pop. rewrite filter_app. cbn. rewrite Z.eqb_refl. cbn.
  rewrite app_nil_r. induction d as [|[k w] d IH]; [reflexivity|].
  cbn. destruct (k =? n) eqn:E; cbn; [exact IH|].
  rewrite E. cbn. rewrite IH. reflexivity.
Qed.

(** The dictionary after a set of the single-value view: the entry of the
    number, holding the one new option, is the last entry. *)
Lemma setter_state (n : Z) (v : V) (d : Options O) :
  number (create_option_value n v) = n ->
  snd (property_set (_single_value_view n) (Some v) d)
  = dict_pop n d ++ [(n, [create_option_value n v])].
Proof.
  intros Hn. rewrite setter_value. cbn [snd].
  rewrite deleteOption_eq_state, addOption_eq. cbn [snd]. rewrite Hn.
  unfold dict_setdefault. rewrite dict_contains_pop.
  apply (dict_append_snoc n _ []), dict_contains_pop.
Qed.

(** X17. Setting the single-value view to a value, then reading: the container
    holds exactly one option under the number of the view, the other numbers
    are untouched, and the view reads the value of the new option. *)
Theorem single_value_set_get (n : Z) (v : V) (d : Options O) :
  number (create_option_value n v) = n ->
  let d' := snd (property_set (_single_value_view n) (Some v) d) in
  fst (getOption n d') = Return [create_option_value n v]
  /\ (forall k, k <> n -> fst (getOption k d') = fst (getOption k d))
  /\ property_get (_single_value_view n) d'
     = (Return (Some (opt_value (create_option_value n v))), d').
Proof.
  intros Hn d'.
  assert (Hget : forall k,
             contents k d'
             = if n =? k then [create_option_value n v] else contents k d).
  { intros k. subst d'. rewrite setter_value. cbn [snd].
    rewrite contents_addOption, contents_deleteOption, Hn.
    destruct (n =? k); [reflexivity | apply app_nil_r]. }
  split; [|split].
  - rewrite getOption_eq. cbn [fst]. rewrite Hget, Z.eqb_refl. reflexivity.
  - intros k Hk. rewrite !getOption_eq. cbn [fst]. rewrite Hget.
    destruct (Z.eqb_spec n k); [congruence | reflexivity].
  - unfold property_get, _single_value_view, _getter, fget, bind.
    rewrite getOption_eq, Hget, Z.eqb_refl. reflexivity.
Qed.

(** X18. Setting the single-value view twice to the same value leaves the
    dictionary that setting it once leaves. *)
Theorem single_value_set_idempotent (n : Z) (v : V) (d : Options O) :
  number (create_option_value n v) = n ->
  snd (property_set (_single_value_view n) (Some v)
         (snd (property_set (_single_value_view n) (Some v) d)))
  = snd (property_set (_single_value_view n) (Some v) d).
Proof.
  intros Hn. rewrite !setter_state by exact Hn.
  rewrite dict_pop_snoc. reflexivity.
Qed.

(** X19. The single-value view reads the value of the first option stored under
    its number, which in a reachable state is the one added earliest among
    the surviving ones, and [None] when there is none. *)
Theorem single_value_get_first (n : Z) (h : list O) (d : Options O) :
  reaches h d ->
  property_get (_single_value_view n) d
  = (Return (match with_key number n h with
             | [] => None
             | o :: _ => Some (opt_value o)
             end), d).
Proof.
  intros Hr.
  unfold property_get, _single_value_view, _getter, fget, bind.
  rewrite getOption_eq, (reaches_contents _ _ Hr).
  destruct (with_key number n h); reflexivity.
Qed.

Lemma filter_const {A} (b : bool) (l : list A) :
  filter (fun _ => b) l = if b then l else [].
Proof.
  induction l as [|x l IH]; [destruct b; reflexivity|].
  cbn. rewrite IH. destruct b; reflexivity.
Qed.

Lemma add_values_eq (n : Z) (value : list V) :
  forall d : Options O,
    items_view.add_values n value d
    = (Return tt, add_all (map (create_option_value n) value) d).
Proof.
  induction value as [|v value IH]; intros d; [reflexivity|].
  cbn [items_view.add_values]. unfold bind. rewrite addOption_eq.
  rewrite IH. reflexivity.
Qed.

Lemma items_setter_eq (n : Z) (value : list V) (d : Options O) :
  items_view._setter n value d
  = (Return tt, add_all (map (create_option_value n) value) (dict_pop n d)).
Proof.
  unfold items_view._setter, bind. rewrite deleteOption_eq.
  apply add_values_eq.
Qed.

(** X20. Setting the items view to the values of an iterable, then reading: the
    container holds under the number of the view one option per value, in
    the order of the iterable, the other numbers are untouched, and the view
    reads the values of these options in that order. *)
Theorem items_set_get (n : Z) (value : list V) (d : Options O) :
  (forall v, number (create_option_value n v) = n) ->
  let d' := snd (items_view._setter n value d) in
  fst (getOption n d') = Return (map (create_option_value n) value)
  /\ (forall k, k <> n -> fst (getOption k d') = fst (getOption k d))
  /\ items_view._getter n d'
     = (Return (map (fun v => opt_value (create_option_value n v)) value), d').
Proof.
  intros Hn d'.
  assert (Hget : forall k,
             contents k d'
             = if n =? k then map (create_option_value n) value
               else contents k d).
  { intros k. subst d'. rewrite items_setter_eq. cbn [snd].
    rewrite contents_add_all, <- deleteOption_eq_state, contents_deleteOption.
    rewrite (with_key_map (fun _ => n) number) by exact Hn.
    unfold with_key. rewrite filter_const.
    destruct (n =? k); [reflexivity | apply app_nil_r]. }
  split; [|split].
  - rewrite getOption_eq. cbn [fst]. rewrite Hget, Z.eqb_refl. reflexivity.
  - intros k Hk. rewrite !getOption_eq. cbn [fst]. rewrite Hget.
    destruct (Z.eqb_spec n k); [congruence | reflexivity].
  - unfold items_view._getter, bind. rewrite getOption_eq, Hget, Z.eqb_refl.
    unfold ret. rewrite map_map. reflexivity.
Qed.

(** X21. The two views of one number ([etag] and [etags]): the single-value view
    reads the first of the values the items view reads, [None] when there
    is none. *)
Theorem single_value_reads_first_item (n : Z) (d : Options O) :
  exists values,
    items_view._getter n d = (Return values, d)
    /\ property_get (_single_value_view n) d
       = (Return (match values with [] => None | v :: _ => Some v end), d).
Proof.
  exists (map opt_value (contents n d)). split; [reflexivity|].
  unfold property_get, _single_value_view, _getter, fget, bind.
  rewrite getOption_eq. destruct (contents n d); reflexivity.
Qed.

End ViewExtras.

(** ** The further properties at concrete inputs *)

Lemma sample_reaches : reaches sample_options (add_all sample_options init).
Proof. apply (reaches_add_all sample_options [] init). constructor. Qed.

Lemma container_invariant_witness :
  NoDup (map fst (add_all sample_options init))
  /\ forall k v, dict_get k (add_all sample_options init) = Some v ->
                 v <> [] /\ Forall (fun o => number o = k) v.
Proof. exact (container_invariant _ _ sample_reaches). Defined.

Lemma getOption_deleteOption_witness :
  snd (deleteOption 7 (add_all sample_options init))
  = add_all sample_options init.
Proof.
  apply (getOption_deleteOption (add_all sample_options init) 7 7).
  - reflexivity.
  - exact (reaches_well_formed _ _ sample_reaches).
Defined.

Lemma optionList_extensional_witness :
  let o5 := {| raw_number := 5; raw_value := [Byte.x01] |} in
  let o11 := {| raw_number := 11; raw_value := [Byte.x47] |} in
  fst (optionList (add_all [o5; o11] init))
  = fst (optionList (add_all [o11; o5] init))
  /\ fst (encode (add_all [o5; o11] init))
     = fst (encode (add_all [o11; o5] init)).
Proof.
  intros o5 o11. apply optionList_extensional.
  - apply (reaches_well_formed [o5; o11]).
    apply (reaches_add_all [o5; o11] [] init). constructor.
  - apply (reaches_well_formed [o11; o5]).
    apply (reaches_add_all [o11; o5] [] init). constructor.
  - intros k. rewrite !getOption_eq. cbn [fst].
    change (add_all [o5; o11] init) with [(5, [o5]); (11, [o11])].
    change (add_all [o11; o5] init) with [(11, [o11]); (5, [o5])].
    unfold contents. cbn [dict_get].
    destruct (Z.eqb_spec 5 k), (Z.eqb_spec 11 k); try reflexivity. lia.
Defined.

Lemma optionList_empty_group_witness :
  optionList [(5, @nil RawOption)] = (Raise IndexError, [(5, [])])
  /\ exists l, optionList (add_all sample_options init)
               = (Return l, add_all sample_options init).
Proof.
  split.
  - apply (optionList_empty_group [(5, @nil RawOption)]). left. reflexivity.
  - apply (optionList_empty_group (add_all sample_options init)).
    cbn. intros [Heq|[Heq|[Heq|[]]]]; discriminate.
Defined.

Lemma encode_returns_iff_witness :
  ((exists header, fst (encode (add_all sample_options init)) = Return header)
   <-> encodable 0 (stable_sort number sample_options))
  /\ (forall e, fst (encode (add_all sample_options init)) = Raise e ->
                e = ValueError).
Proof. exact (encode_returns_iff _ _ sample_reaches). Defined.



Lemma decode_payload_follows_marker_witness :
  exists before,
    [Byte.x10; Byte.xff; Byte.x01] = before ++ Byte.xff :: [Byte.x01].
Proof.
  apply (decode_payload_follows_marker
           [Byte.x10; Byte.xff; Byte.x01] [Byte.x01] (@init RawOption)
           [(1, [{| raw_number := 1; raw_value := [] |}])]).
  reflexivity.
Defined.

Lemma decode_errors_witness :
  StructError = ValueError \/ StructError = IndexError
  \/ StructError = StructError.
Proof.
  apply (decode_errors [Byte.xe0; Byte.x01] (@init RawOption)). reflexivity.
Defined.

Lemma single_value_set_get_witness :
  let d' := snd (property_set (_single_value_view 23) (Some [Byte.x01])
                   (add_all sample_options init)) in
  fst (getOption 23 d') = Return [create_option_value 23 [Byte.x01]]
  /\ (forall k, k <> 23 ->
                fst (getOption k d')
                = fst (getOption k (add_all sample_options init)))
  /\ property_get (_single_value_view 23) d' = (Return (Some [Byte.x01]), d').
Proof.
  exact (single_value_set_get 23 [Byte.x01] (add_all sample_options init)
           eq_refl).
Defined.

Lemma single_value_set_idempotent_witness :
  snd (property_set (_single_value_view 11) (Some [Byte.x01])
         (snd (property_set (_single_value_view 11) (Some [Byte.x01])
                 (add_all sample_options init))))
  = snd (property_set (_single_value_view 11) (Some [Byte.x01])
           (add_all sample_options init)).
Proof.
  apply (single_value_set_idempotent 11 [Byte.x01]). reflexivity.
Defined.

Lemma single_value_get_first_witness :
  property_get (_single_value_view 11) (add_all sample_options init)
  = (Return (Some [Byte.x47; Byte.x45]), add_all sample_options init).
Proof. exact (single_value_get_first 11 _ _ sample_reaches). Defined.

Lemma items_set_get_witness :
  let value := [[Byte.x61]; [Byte.x62]] in
  let d' := snd (items_view._setter 11 value (add_all sample_options init)) in
  fst (getOption 11 d') = Return (map (create_option_value 11) value)
  /\ (forall k, k <> 11 ->
                fst (getOption k d')
                = fst (getOption k (add_all sample_options init)))
  /\ items_view._getter 11 d' = (Return value, d').
Proof.
  exact (items_set_get 11 [[Byte.x61]; [Byte.x62]]
           (add_all sample_options init) (fun _ => eq_refl)).
Defined.

(** ** Unique decodability *)

(** X4. Two encoded fields with the same nibble that begin two byte sequences
    which are equal carry the same value and are followed by the same
    bytes: no extension is a proper prefix of another one's reading. *)
Theorem write_prefix_free (v1 v2 nib : Z) (ext1 ext2 rest1 rest2 : bytes) :
  writeExtendedFieldValue v1 = Return (nib, ext1) ->
  writeExtendedFieldValue v2 = Return (nib, ext2) ->
  ext1 ++ rest1 = ext2 ++ rest2 ->
  v1 = v2 /\ ext1 = ext2 /\ rest1 = rest2.
Proof.
  intros H1 H2 Heq.
  pose proof (read_write _ _ _ rest1 H1) as R1.
  pose proof (read_write _ _ _ rest2 H2) as R2.
  rewrite Heq, R2 in R1.
  assert (v1 = v2 /\ rest1 = rest2) as [-> ->] by (split; congruence).
  split; [reflexivity|]. split; [congruence | reflexivity].
Qed.

Lemma write_prefix_free_witness :
  300 = 300 /\ [Byte.x00; Byte.x1f] = [Byte.x00; Byte.x1f]
  /\ [Byte.x07] = [Byte.x07].
Proof.
  apply (write_prefix_free 300 300 14 _ _ [Byte.x07] [Byte.x07]);
    reflexivity.
Defined.

Section EncodeInjective.

Context {O V : Type} `{OptionInstance O V} `{!OptionLaws O V}.



End EncodeInjective.


(** ** Missing extension bytes, seen from [decode] *)

Section MissingExtension.

Context {O V : Type} `{OptionInstance O V}.

(** An entry whose delta nibble is 13 and that ends the input. *)
Lemma decode_missing_extension_13 (dllen : byte) (d : Options O) :
  Z.shiftr (Z.land (byte.unsigned dllen) 240) 4 = 13 ->
  decode [dllen] d = (Raise IndexError, d).
Proof.
  intros Hnib. unfold decode. rewrite decode_loop_cons. unfold decode_entry.
  destruct (Z.eqb_spec (byte.unsigned dllen) 255) as [Hff|Hff].
  { rewrite Hff in Hnib. vm_compute in Hnib. discriminate. }
  rewrite Hnib. reflexivity.
Qed.

(** An entry whose delta nibble is 14 and that is followed by fewer than
    two bytes. *)
Lemma decode_missing_extension_14 (dllen : byte) (rawdata : bytes)
      (d : Options O) :
  Z.shiftr (Z.land (byte.unsigned dllen) 240) 4 = 14 ->
  (List.length rawdata < 2)%nat ->
  decode (dllen :: rawdata) d = (Raise StructError, d).
Proof.
  intros Hnib Hlen. unfold decode. rewrite decode_loop_cons.
  unfold decode_entry.
  destruct (Z.eqb_spec (byte.unsigned dllen) 255) as [Hff|Hff].
  { rewrite Hff in Hnib. vm_compute in Hnib. discriminate. }
  rewrite Hnib.
  destruct rawdata as [|b0 [|b1 rawdata]]; [reflexivity | reflexivity|].
  cbn in Hlen. lia.
Qed.

End MissingExtension.
